(** * mcp-server-smtp: relay configuration, audit log and request handlers

    A shallow embedding of [src/config.ts] (relay configuration loading and
    the JSON audit log), of [logToFile] from the entry point (imported as
    [./index.js]) and of the tool-call handlers (imported as
    [./requestHandler.js]), followed by the properties of the specification
    that concern them. The delivery service [emailService.ts] is not among
    the sources; what the properties need of it is modelled from the
    specification in [EmailService].

    JavaScript values are modelled by what the code inspects: exceptions are
    an explicit completion ([Return] / [Throw]), asynchronous functions are
    run to completion in program order, and every module-level variable and
    file the code touches is a field of [World]. *)

From Stdlib Require Import List ZArith Bool Lia Arith Permutation Sorted.
From Stdlib Require Import String Ascii DecimalString.
Import ListNotations.
Open Scope string_scope.
Open Scope list_scope.
Open Scope nat_scope.

(** ** JavaScript preliminaries *)

Module Js.

(** An [Error] object; the code reads [message] and [stack], and
    converts the object to a string. *)
Record Error := mkError { name : string; message : string; stack : string }.

(** [Error(msg)]: the stack starts with the error's own line (the call
    frames after it are left out). *)
Definition newError (msg : string) : Error :=
  mkError "Error" msg (String.append "Error: " msg).

Definition TypeError (msg : string) : Error :=
  mkError "TypeError" msg (String.append "TypeError: " msg).

(** Result of evaluating a function body. *)
Inductive Completion (A : Type) : Type :=
| Return (a : A)
| Throw (e : Error).
Arguments Return {A} a.
Arguments Throw {A} e.

(** Template literals. *)
Definition cat (parts : list string) : string := String.concat "" parts.

(** [String(error)] *)
Definition toString (e : Error) : string := cat [name e; ": "; message e].

(** [String(n)] for a non-negative integer. *)
Definition string_of_nat (n : nat) : string :=
  NilEmpty.string_of_uint (Nat.to_uint n).

(** Truthiness of a string. *)
Definition truthy_string (s : string) : bool :=
  match s with EmptyString => false | String _ _ => true end.

Definition quote : string := String (ascii_of_nat 34) EmptyString.

(** [JSON.stringify] of an array of strings (keys hold no characters
    that need escaping in the configurations considered). *)
Definition stringify_strings (l : list string) : string :=
  cat ["["; String.concat "," (map (fun k => cat [quote; k; quote]) l); "]"].

End Js.
Import Js.

(** ** Data model ([src/config.ts], lines 6-46) *)

Record Auth := mkAuth { user : string; pass : string }.

Record SmtpServerConfig := mkServer {
  id : string;
  name : string;
  host : string;
  port : Z;
  secure : bool;
  auth : Auth;
  isDefault : bool
}.

Record RateLimitConfig := mkRateLimit {
  enabled : bool;
  messagesPerMinute : Z
}.

(** [rateLimit: parsedJson.rateLimit || 30]: the configured object, or the
    number the code falls back to. *)
Inductive RateLimit :=
| RateLimitObject (r : RateLimitConfig)
| RateLimitNumber (n : Z).

Record SmtpConfig := mkSmtpConfig {
  smtpServers : list SmtpServerConfig;
  rateLimit : RateLimit
}.

(** [logMessage] is the field [message] of the source. *)
Record EmailLogEntry := mkLogEntry {
  timestamp : string;
  smtpConfig : string;
  templateId : option string;
  recipient : string;
  subject : string;
  success : bool;
  logMessage : option string
}.

(** The value of [parsedJson.smtpServers] as the loader inspects it: its
    truthiness, [Array.isArray] and, for an array, its elements (typed
    [SmtpServerConfig] as in the source). *)
Inductive ServersProp :=
| SPUndefined
| SPNull
| SPBool (b : bool)
| SPNumber (n : Z)
| SPString (s : string)
| SPObject
| SPArray (servers : list SmtpServerConfig).

(** The result of [JSON.parse]: [null] (on which [Object.keys] throws), or
    a value with its own keys and the two properties the loader reads.
    A non-object value has no keys and both properties undefined. *)
Inductive Json :=
| JsonNull
| JsonValue (keys : list string) (servers : ServersProp)
            (limit : option RateLimitConfig).

(** ** The world the program runs in *)

(** Content of the audit log file as [fs.readJson] sees it. An array is
    taken to hold log entries, as the cast [as EmailLogEntry[]] of the
    source takes it; an array with other elements is outside the model. *)
Inductive LogJson :=
| LogNotArray
| LogEntries (entries : list EmailLogEntry).

Inductive FileData :=
| ReadFails (e : Error)          (* I/O or JSON syntax error on read *)
| Parsed (v : LogJson).

(** Outcome of the next [fs.writeJson]: it succeeds, or throws and leaves
    the file in some state. *)
Inductive WriteOutcome :=
| WriteOk
| WriteFails (e : Error) (remains : option FileData).

Record Disk := mkDisk {
  ensureDir_error : option Error;   (* [fs.ensureDir(CONFIG_DIR)] *)
  logFile : option FileData;        (* [LOG_FILE]; [None]: no such path *)
  writeJson_outcome : WriteOutcome
}.

Record World := mkWorld {
  SMTP_CONFIG_BASE64 : option string;       (* [process.env] *)
  cachedSmtpConfig : option SmtpConfig;     (* module variable, config.ts:134 *)
  disk : Disk;
  serverLogWritable : bool;                 (* [fs.appendFileSync] succeeds *)
  serverLog : list string                   (* lines written by [logToFile] *)
}.

(** ** Effects: state and exceptions *)

Definition M (A : Type) : Type := World -> Completion A * World.

Definition ret {A} (a : A) : M A := fun w => (Return a, w).

Definition throw {A} (e : Error) : M A := fun w => (Throw e, w).

Definition bind {A B} (c : M A) (k : A -> M B) : M B :=
  fun w =>
    match c w with
    | (Return a, w') => k a w'
    | (Throw e, w') => (Throw e, w')
    end.

(** [try { body } catch (error) { handler }] *)
Definition try_catch {A} (body : M A) (handler : Error -> M A) : M A :=
  fun w =>
    match body w with
    | (Return a, w') => (Return a, w')
    | (Throw e, w') => handler e w'
    end.

Definition get_world : M World := fun w => (Return w, w).

Declare Scope js_scope.
Delimit Scope js_scope with js.
Notation "x <- c ;; k" := (bind c (fun x => k))
  (at level 100, c at next level, right associativity) : js_scope.
Notation "c ;;; k" := (bind c (fun _ => k))
  (at level 100, right associativity) : js_scope.
Local Open Scope js_scope.

(** ** Asynchronous functions, one await at a time

    An [M] computation runs a whole call with nothing else in between. An
    [async] function gives the rest of the program a turn at each [await];
    where that matters the function is written as a task, settled or
    waiting for one awaited operation. *)

Module Async.

Inductive t (A : Type) : Type :=
| Settled (c : Completion A)
| Await (effect : World -> World) (next : World -> t A).
Arguments Settled {A} c.
Arguments Await {A} effect next.

(** [await op], then the synchronous code [k] up to the next [await] or to
    the end: when the task is resumed the operation completes on the world
    as it is then, and [k] runs on in the same turn. An exception that [k]
    lets through rejects the task. *)
Definition await {A B} (op : M B) (k : Completion B -> M (t A)) : t A :=
  Await (fun w => let (c, w1) := op w in snd (k c w1))
        (fun w => let (c, w1) := op w in
                  match fst (k c w1) with
                  | Return rest => rest
                  | Throw e => Settled (Throw e)
                  end).

(** The task awaited with nothing else scheduled between its steps. *)
Fixpoint run {A} (task : t A) (w : World) : Completion A * World :=
  match task with
  | Settled c => (c, w)
  | Await effect next => run (next w) (effect w)
  end.

(** The task in a program that goes on running: before the task's step
    number [n] the rest of the program turns the world into
    [others n w]. *)
Fixpoint runAmong {A} (others : nat -> World -> World) (n : nat)
    (task : t A) (w : World) : Completion A * World :=
  match task with
  | Settled c => (c, w)
  | Await effect next =>
      let w0 := others n w in
      runAmong others (S n) (next w0) (effect w0)
  end.

(** One turn of a task. *)
Definition step {A} (task : t A) (w : World) : t A * World :=
  match task with
  | Settled c => (Settled c, w)
  | Await effect next => (next w, effect w)
  end.

(** Two tasks started together; the schedule says whose turn it is
    ([true]: the first task). *)
Fixpoint interleave {A B} (schedule : list bool) (a : t A) (b : t B)
    (w : World) : t A * t B * World :=
  match schedule with
  | [] => (a, b, w)
  | true :: rest =>
      let (a', w') := step a w in interleave rest a' b w'
  | false :: rest =>
      let (b', w') := step b w in interleave rest a b' w'
  end.

End Async.

(** ** [src/index.ts] *)

(** [fs.appendFileSync(logFile, line)] inside [try { } catch { }]: the
    line is appended, or nothing happens (index.ts:25-29). *)
Definition appendServerLog (line : string) (w : World) : World :=
  if serverLogWritable w
  then mkWorld (SMTP_CONFIG_BASE64 w) (cachedSmtpConfig w) (disk w)
               (serverLogWritable w) (serverLog w ++ [line])
  else w.

(** [logToFile] (index.ts:24-30). The line's wall-clock prefix is left
    out. *)
Definition logToFile (message : string) : M unit :=
  fun w => (Return tt, appendServerLog message w).

(** ** [src/config.ts]: relay configuration *)

Module Config.

Definition lift {A} (c : Completion A) : M A := fun w => (c, w).

Definition set_cachedSmtpConfig (c : SmtpConfig) : M unit :=
  fun w =>
    (Return tt,
     mkWorld (SMTP_CONFIG_BASE64 w) (Some c) (disk w)
             (serverLogWritable w) (serverLog w)).

(** Truthiness of [parsedJson.smtpServers]. *)
Definition truthy (p : ServersProp) : bool :=
  match p with
  | SPUndefined | SPNull => false
  | SPBool b => b
  | SPNumber n => negb (n =? 0)%Z
  | SPString s => truthy_string s
  | SPObject | SPArray _ => true
  end.

Definition isArray (p : ServersProp) : bool :=
  match p with SPArray _ => true | _ => false end.

(** The elements of an array value (of no use on anything else). *)
Definition elements (p : ServersProp) : list SmtpServerConfig :=
  match p with SPArray l => l | _ => [] end.

(** [Object.keys(parsedJson)] *)
Definition Object_keys (j : Json) : M (list string) :=
  match j with
  | JsonNull =>
      throw (TypeError "Cannot convert undefined or null to object")
  | JsonValue keys _ _ => ret keys
  end.

Definition prop_smtpServers (j : Json) : ServersProp :=
  match j with JsonNull => SPUndefined | JsonValue _ s _ => s end.

Definition prop_rateLimit (j : Json) : option RateLimitConfig :=
  match j with JsonNull => None | JsonValue _ _ r => r end.

Definition setDefault (s : SmtpServerConfig) : SmtpServerConfig :=
  mkServer (id s) (name s) (host s) (port s) (secure s) (auth s) true.

(** [config.smtpServers[0].isDefault = true] *)
Definition markFirstDefault (l : list SmtpServerConfig)
  : list SmtpServerConfig :=
  match l with
  | [] => []
  | first :: rest => setDefault first :: rest
  end.

Section Loader.

(** [Buffer.from(s, "base64").toString("utf-8")] and [JSON.parse]. *)
Variable base64_decode : string -> string.
Variable JSON_parse : string -> Completion Json.

(** config.ts:56-131 *)
Definition parseSmtpConfigFromEnv : M SmtpConfig :=
  try_catch
    (w <- get_world ;;
     let encodedConfig := SMTP_CONFIG_BASE64 w in
     match encodedConfig with
     | None | Some EmptyString =>
         logToFile "No SMTP_CONFIG_BASE64 environment variable found, using default config" ;;;
         throw (newError "No config in env!")
     | Some encoded =>
         logToFile "Found SMTP_CONFIG_BASE64 environment variable" ;;;
         let jsonString := base64_decode encoded in
         logToFile (cat ["Decoded config sample: ";
                         substring 0 50 jsonString; "..."]) ;;;
         parsedJson <- lift (JSON_parse jsonString) ;;
         keys <- Object_keys parsedJson ;;
         logToFile (cat ["Parsed config keys: "; stringify_strings keys]) ;;;
         let config_smtpServers :=
           if truthy (prop_smtpServers parsedJson)
           then prop_smtpServers parsedJson else SPArray [] in
         let config_rateLimit :=
           match prop_rateLimit parsedJson with
           | Some r => RateLimitObject r
           | None => RateLimitNumber 30
           end in
         if negb (truthy config_smtpServers)
            || negb (isArray config_smtpServers)
            || (List.length (elements config_smtpServers) =? 0)
         then
           logToFile "Invalid SMTP configuration format in environment variable, using default config" ;;;
           throw (newError "Config not parsed!")
         else
           let servers := elements config_smtpServers in
           match servers with
           | firstServer :: _ =>
               logToFile (cat ["First server: id="; id firstServer;
                               ", name="; name firstServer;
                               ", host="; host firstServer])
           | [] => ret tt
           end ;;;
           let hasDefault := existsb isDefault servers in
           servers' <-
             (if negb hasDefault && (0 <? List.length servers)
              then
                let servers' := markFirstDefault servers in
                logToFile (cat ["Setting the first server (";
                                match servers' with
                                | s :: _ => name s
                                | [] => ""
                                end; ") as default"]) ;;;
                ret servers'
              else ret servers) ;;
           logToFile (cat ["Successfully parsed SMTP config with ";
                           string_of_nat (List.length servers'); " server(s)"]) ;;;
           ret (mkSmtpConfig servers' config_rateLimit)
     end)
    (fun error =>
       logToFile (cat ["Error parsing SMTP config from environment: ";
                       message error]) ;;;
       (if truthy_string (stack error)
        then logToFile (cat ["Stack trace: "; stack error])
        else ret tt) ;;;
       throw error).

(** config.ts:139-162 *)
Definition getSmtpConfigs : M (list SmtpServerConfig) :=
  try_catch
    (w <- get_world ;;
     cached <-
       match cachedSmtpConfig w with
       | None =>
           logToFile "Initializing SMTP configuration cache" ;;;
           c <- parseSmtpConfigFromEnv ;;
           set_cachedSmtpConfig c ;;;
           ret c
       | Some c => ret c
       end ;;
     let configs := smtpServers cached in
     logToFile (cat ["Returning "; string_of_nat (List.length configs);
                     " SMTP configurations"]) ;;;
     (if List.length configs =? 0
      then logToFile "WARNING: No SMTP configurations available!"
      else ret tt) ;;;
     ret configs)
    (fun error =>
       logToFile (cat ["Error getting SMTP configs: "; message error]) ;;;
       throw error).

End Loader.

(** *** The audit log ([fs-extra] on [LOG_FILE]) *)

Definition set_logFile (f : option FileData) : M unit :=
  fun w =>
    (Return tt,
     mkWorld (SMTP_CONFIG_BASE64 w) (cachedSmtpConfig w)
             (mkDisk (ensureDir_error (disk w)) f
                     (writeJson_outcome (disk w)))
             (serverLogWritable w) (serverLog w)).

(** [fs.ensureDir(CONFIG_DIR)] *)
Definition fs_ensureDir : M unit :=
  w <- get_world ;;
  match ensureDir_error (disk w) with
  | Some e => throw e
  | None => ret tt
  end.

(** [fs.pathExists(LOG_FILE)]: never throws. *)
Definition fs_pathExists : M bool :=
  w <- get_world ;;
  ret (match logFile (disk w) with Some _ => true | None => false end).

(** [fs.readJson(LOG_FILE)] *)
Definition fs_readJson : M LogJson :=
  w <- get_world ;;
  match logFile (disk w) with
  | Some (Parsed v) => ret v
  | Some (ReadFails e) => throw e
  | None => throw (newError "ENOENT: no such file or directory")
  end.

(** [fs.writeJson(LOG_FILE, logs, { spaces: 2 })] *)
Definition fs_writeJson (logs : list EmailLogEntry) : M unit :=
  w <- get_world ;;
  match writeJson_outcome (disk w) with
  | WriteOk => set_logFile (Some (Parsed (LogEntries logs)))
  | WriteFails e remains => set_logFile remains ;;; throw e
  end.

(** [logs.push(entry)]; the cast [as EmailLogEntry[]] checks nothing, so
    on a value that is not an array the call throws. *)
Definition push (logs : LogJson) (entry : EmailLogEntry)
  : M (list EmailLogEntry) :=
  match logs with
  | LogEntries l => ret (l ++ [entry])
  | LogNotArray =>
      throw (TypeError "logs.push is not a function")
  end.

(** config.ts:167-193, the call awaited with nothing else scheduled
    between its steps; [logEmailActivityTask] below has the steps. *)
Definition logEmailActivity (entry : EmailLogEntry) : M bool :=
  try_catch
    (fs_ensureDir ;;;
     pathExists <- fs_pathExists ;;
     logs <- (if pathExists : bool
              then fs_readJson
              else ret (LogEntries [])) ;;
     logs' <- push logs entry ;;
     fs_writeJson logs' ;;;
     ret true)
    (fun error =>
       logToFile (cat ["Error logging email activity: "; message error]) ;;;
       ret false).

(** config.ts:167-193, one [await] at a time: the directory, the test for
    the file, the read and the write are four turns, and between the read
    and the write the rest of the program runs; nothing locks the file. *)
Definition logEmailActivityTask (entry : EmailLogEntry) : Async.t bool :=
  let catch (error : Error) : M (Async.t bool) :=
    logToFile (cat ["Error logging email activity: "; message error]) ;;;
    ret (Async.Settled (Return false)) in
  let pushAndWrite (logs : LogJson) : M (Async.t bool) :=
    try_catch
      (logs' <- push logs entry ;;
       ret (Async.await (fs_writeJson logs')
              (fun written =>
                 match written with
                 | Return _ => ret (Async.Settled (Return true))
                 | Throw error => catch error
                 end)))
      catch in
  Async.await fs_ensureDir
    (fun ensured =>
       match ensured with
       | Throw error => catch error
       | Return _ =>
           ret (Async.await fs_pathExists
                  (fun found =>
                     match found with
                     | Throw error => catch error
                     | Return true =>
                         ret (Async.await fs_readJson
                                (fun read =>
                                   match read with
                                   | Throw error => catch error
                                   | Return logs => pushAndWrite logs
                                   end))
                     | Return false => pushAndWrite (LogEntries [])
                     end))
       end).

(** config.ts:198-212 *)
Definition getEmailLogs : M LogJson :=
  try_catch
    (pathExists <- fs_pathExists ;;
     if pathExists : bool
     then fs_readJson
     else ret (LogEntries []))
    (fun error =>
       logToFile (cat ["Error reading email logs: "; message error]) ;;;
       ret (LogEntries [])).

End Config.

(** ** [emailService.ts]: the delivery service

    The request handlers import [sendEmail], [sendBulkEmails] and the types
    [EmailRecipient], [EmailData] and [BulkEmailData] from this file, which
    is not among the sources. *)

Module EmailService.

(** Modelled from the spec: the type [EmailRecipient] of [emailService.ts]
    (section 3, Recipient: an email address and an optional display name;
    the same fields as the items of [to] in [src/tools.ts]). *)
Module EmailRecipient.
Record t := mk { email : string; name : option string }.
End EmailRecipient.

(** Modelled from the spec: the substitution data of a template
    (section 3), an object used as a map. *)
Definition TemplateData := list (string * string).

(** Modelled from the spec: the type [EmailData] of [emailService.ts]
    (section 3, MessageRequest), with the fields the handler assigns
    (requestHandler.ts:127-136). *)
Module EmailData.
Record t := mk {
  to : list EmailRecipient.t;
  subject : option string;
  body : option string;
  from : option EmailRecipient.t;
  cc : option (list EmailRecipient.t);
  bcc : option (list EmailRecipient.t);
  templateId : option string;
  templateData : option TemplateData
}.
End EmailData.

(** Modelled from the spec: the type [BulkEmailData] of [emailService.ts]
    (section 3, BulkRequest), with the fields the handler assigns
    (requestHandler.ts:177-188). *)
Module BulkEmailData.
Record t := mk {
  recipients : option (list EmailRecipient.t);
  subject : option string;
  body : option string;
  from : option EmailRecipient.t;
  cc : option (list EmailRecipient.t);
  bcc : option (list EmailRecipient.t);
  templateId : option string;
  templateData : option TemplateData;
  batchSize : option nat;
  delayBetweenBatches : option nat
}.
End BulkEmailData.

(** Modelled from the spec: what [sendEmail] of [emailService.ts] resolves
    to (section 6: a success flag and a message), as the handler reads it
    (requestHandler.ts:141-149). *)
Module SendResult.
Record t := mk { success : bool; message : option string }.
End SendResult.

(** Modelled from the spec: one failure detail of a BulkResult
    (section 3: recipient and reason). *)
Module Failure.
Record t := mk { recipient : EmailRecipient.t; reason : string }.
End Failure.

(** Modelled from the spec: what [sendBulkEmails] of [emailService.ts]
    resolves to (section 3, BulkResult), as the handler reads it
    (requestHandler.ts:193-204). *)
Module BulkResult.
Record t := mk {
  success : bool;
  totalSent : nat;
  totalFailed : nat;
  failures : list Failure.t;
  message : string
}.
End BulkResult.

(** Modelled from the spec: what the mail transport, an external
    collaborator of [emailService.ts], is handed for one delivery attempt
    (section 4.2: sender, recipients, subject, body). *)
Module Message.
Record t := mk {
  sender : EmailRecipient.t;
  to : list EmailRecipient.t;
  cc : option (list EmailRecipient.t);
  bcc : option (list EmailRecipient.t);
  subject : string;
  body : string
}.
End Message.

(** Modelled from the spec: the batching step of [sendBulkEmails], whose
    source file is not part of the sources at hand (section 4.3, step 3:
    the recipient list is cut into contiguous groups of [batchSize], the
    last group may be smaller). [fuel] bounds the number of groups. *)
Fixpoint batchesFrom {A} (fuel batchSize : nat) (l : list A)
  : list (list A) :=
  match fuel with
  | O => []
  | S fuel' =>
      match l with
      | [] => []
      | _ :: _ =>
          firstn batchSize l :: batchesFrom fuel' batchSize (skipn batchSize l)
      end
  end.

(** Modelled from the spec: the batching step of [sendBulkEmails]; a list
    of [N] recipients has at most [N] groups. *)
Definition partitionBatches {A} (batchSize : nat) (l : list A)
  : list (list A) :=
  batchesFrom (List.length l) batchSize l.

Section Engine.

Variable base64_decode : string -> string.
Variable JSON_parse : string -> Completion Json.

(** External collaborators of the engine: the template resolver, the
    mail transport (throws when the relay refuses or cannot be
    reached), the clock and the wording of the summary message. *)
Variable resolveTemplate : string -> option TemplateData -> M (string * string).
Variable transport : SmtpServerConfig -> Message.t -> M unit.
Variable now : World -> string.
Variable summary : nat -> nat -> string.

(** Modelled from the spec: the Relay Registry's [lookup] of
    [emailService.ts] (section 4.1), over [getSmtpConfigs]: the config
    with the given identifier, NotFound when there is none; without an
    identifier, the config marked default. *)
Definition lookup (relayId : option string) : M SmtpServerConfig :=
  configs <- Config.getSmtpConfigs base64_decode JSON_parse ;;
  match relayId with
  | Some i =>
      match find (fun c => String.eqb (id c) i) configs with
      | Some c => ret c
      | None => throw (newError "NotFound")
      end
  | None =>
      match find isDefault configs with
      | Some c => ret c
      | None => throw (newError "NotFound")
      end
  end.

(** Modelled from the spec: content resolution of [emailService.ts]
    (section 4.2): the template resolver when a template identifier is
    given, else the literal subject and body, ValidationError when
    both are empty. *)
Definition resolveContent (templateId : option string)
    (templateData : option TemplateData) (subject body : option string)
  : M (string * string) :=
  match templateId with
  | Some t => resolveTemplate t templateData
  | None =>
      let s := match subject with Some s => s | None => "" end in
      let b := match body with Some b => b | None => "" end in
      if negb (truthy_string s) && negb (truthy_string b)
      then throw (newError "ValidationError")
      else ret (s, b)
  end.

(** Modelled from the spec: the validation of a bulk request in
    [emailService.ts] (section 3: a flat recipient list, batch size
    default 10 and at least 1). *)
Definition validate (data : BulkEmailData.t)
  : M (list EmailRecipient.t * nat) :=
  match BulkEmailData.recipients data with
  | None => throw (newError "ValidationError")
  | Some rs =>
      let b := match BulkEmailData.batchSize data with
               | Some b => b
               | None => 10
               end in
      if b =? 0 then throw (newError "ValidationError") else ret (rs, b)
  end.

(** Modelled from the spec: steps 1 and 2 of [sendBulkEmails] (section
    4.3), preceded by validation: the relay and the content are
    resolved once for the whole request. *)
Definition resolve (data : BulkEmailData.t) (relayId : option string)
  : M (list EmailRecipient.t * nat * SmtpServerConfig * (string * string)) :=
  v <- validate data ;;
  relay <- lookup relayId ;;
  content <- resolveContent (BulkEmailData.templateId data)
                            (BulkEmailData.templateData data)
                            (BulkEmailData.subject data)
                            (BulkEmailData.body data) ;;
  ret (fst v, snd v, relay, content).

(** Modelled from the spec: the Single-Message Dispatcher of
    [emailService.ts] as the bulk engine uses it (section 4.2): one
    delivery attempt, the transport's failure turned into an outcome
    with its reason, and one audit entry appended either way. *)
Definition dispatch (data : BulkEmailData.t) (relay : SmtpServerConfig)
    (content : string * string) (r : EmailRecipient.t)
  : M (EmailRecipient.t * option string) :=
  let sender :=
    match BulkEmailData.from data with
    | Some f => f
    | None => EmailRecipient.mk (user (auth relay)) None
    end in
  let msg := Message.mk sender [r] (BulkEmailData.cc data)
                        (BulkEmailData.bcc data) (fst content) (snd content) in
  outcome <- try_catch (transport relay msg ;;; ret None)
                       (fun e => ret (Some (Js.message e))) ;;
  w <- get_world ;;
  Config.logEmailActivity
    (mkLogEntry (now w) (id relay) (BulkEmailData.templateId data)
                (EmailRecipient.email r) (fst content)
                (match outcome with None => true | Some _ => false end)
                outcome) ;;;
  ret (r, outcome).

(** Modelled from the spec: step 4 of [sendBulkEmails], within one
    group (dispatch in list order). *)
Fixpoint dispatchBatch (data : BulkEmailData.t) (relay : SmtpServerConfig)
    (content : string * string) (batch : list EmailRecipient.t)
  : M (list (EmailRecipient.t * option string)) :=
  match batch with
  | [] => ret []
  | r :: rest =>
      o <- dispatch data relay content r ;;
      os <- dispatchBatch data relay content rest ;;
      ret (o :: os)
  end.

(** Modelled from the spec: step 4 of [sendBulkEmails], over the groups
    in order; the pause between two groups changes nothing in the
    world. *)
Fixpoint dispatchBatches (data : BulkEmailData.t) (relay : SmtpServerConfig)
    (content : string * string) (batches : list (list EmailRecipient.t))
  : M (list (EmailRecipient.t * option string)) :=
  match batches with
  | [] => ret []
  | batch :: rest =>
      os <- dispatchBatch data relay content batch ;;
      os' <- dispatchBatches data relay content rest ;;
      ret (os ++ os')
  end.

(** Modelled from the spec: steps 5 to 7 of [sendBulkEmails]. *)
Definition aggregate (outcomes : list (EmailRecipient.t * option string))
  : BulkResult.t :=
  let failures :=
    flat_map (fun o => match snd o with
                       | Some reason => [Failure.mk (fst o) reason]
                       | None => []
                       end) outcomes in
  let totalSent :=
    List.length (filter (fun o => match snd o with
                                  | None => true
                                  | Some _ => false
                                  end) outcomes) in
  let totalFailed := List.length failures in
  BulkResult.mk (totalFailed =? 0) totalSent totalFailed failures
                (summary totalSent totalFailed).

(** Modelled from the spec: [sendBulkEmails] of [emailService.ts]
    (section 4.3). A failure before dispatch aborts the request with
    every recipient counted as failed. *)
Definition sendBulkEmails (data : BulkEmailData.t)
    (smtpConfigId : option string) : M BulkResult.t :=
  resolved <- try_catch (r <- resolve data smtpConfigId ;; ret (inr r))
                        (fun e => ret (inl e)) ;;
  match resolved with
  | inl e =>
      let n := match BulkEmailData.recipients data with
               | Some rs => List.length rs
               | None => 0
               end in
      ret (BulkResult.mk false 0 n [] (Js.message e))
  | inr (rs, b, relay, content) =>
      outcomes <- dispatchBatches data relay content (partitionBatches b rs) ;;
      ret (aggregate outcomes)
  end.

End Engine.

End EmailService.

(** ** [Array.prototype] methods the handlers use *)

Module JsArray.

(** A JavaScript number that is an integer, or [NaN]. *)
Definition Number := option Z.

Definition sub (a b : Number) : Number :=
  match a, b with
  | Some x, Some y => Some (x - y)%Z
  | _, _ => None
  end.

(** The standard's [SortCompare] on the result of the comparator: [NaN]
    counts as [+0]. *)
Definition sortCompare {A} (comparefn : A -> A -> Number) (x y : A) : Z :=
  match comparefn x y with
  | Some v => v
  | None => 0%Z
  end.

Fixpoint insert {A} (comparefn : A -> A -> Number) (x : A) (l : list A)
  : list A :=
  match l with
  | [] => [x]
  | y :: l' =>
      if (sortCompare comparefn x y <=? 0)%Z
      then x :: l
      else y :: insert comparefn x l'
  end.

(** [sort(comparefn)]: a stable sort, here by insertion from the right.
    For a consistent comparator the standard fixes the result (the
    stable arrangement), whatever algorithm the engine runs. For a
    comparator that returns [NaN] the standard leaves the order to the
    engine; this definition then keeps an element before its right
    neighbour, as V8 does on an array in which every comparison of
    neighbours gives [NaN] or zero (its run detection leaves such an
    array as it is). *)
Definition sort {A} (comparefn : A -> A -> Number) (l : list A) : list A :=
  fold_right (insert comparefn) [] l.

(** [slice(0, n)] for an integer [n > 0]. *)
Definition slice0 {A} (n : Z) (l : list A) : list A := firstn (Z.to_nat n) l.

End JsArray.

(** ** [src/requestHandler.ts] *)

Module RequestHandler.

Import EmailService.

Module Content.
Record t := mk { type : string; text : string }.
End Content.

(** Arguments of [send-email]: [to] is an array of recipients or, as
    line 123 provides for, a single recipient object. *)
Inductive ToParam :=
| ToArray (l : list EmailRecipient.t)
| ToObject (r : EmailRecipient.t).

Module SendEmailParams.
Record t := mk {
  to : ToParam;
  subject : option string;
  body : option string;
  from : option EmailRecipient.t;
  cc : option (list EmailRecipient.t);
  bcc : option (list EmailRecipient.t);
  templateId : option string;
  templateData : option TemplateData;
  smtpConfigId : option string
}.
End SendEmailParams.

Module SendBulkParams.
Record t := mk {
  recipients : option (list EmailRecipient.t);
  subject : option string;
  body : option string;
  from : option EmailRecipient.t;
  cc : option (list EmailRecipient.t);
  bcc : option (list EmailRecipient.t);
  templateId : option string;
  templateData : option TemplateData;
  batchSize : option nat;
  delayBetweenBatches : option nat;
  smtpConfigId : option string
}.
End SendBulkParams.

Module SendEmailResponse.
Record t := mk {
  success : bool;
  message : option string;
  content : list Content.t
}.
End SendEmailResponse.

Module SendBulkResponse.
Record t := mk {
  success : bool;
  totalSent : nat;
  totalFailed : nat;
  failures : option (list Failure.t);
  message : string;
  content : list Content.t
}.
End SendBulkResponse.

Module ConfigsResponse.
Record t := mk {
  success : bool;
  configs : option (list SmtpServerConfig);
  message : option string;
  content : list Content.t
}.
End ConfigsResponse.

Module LogsResponse.
Record t := mk {
  success : bool;
  result : option (list EmailLogEntry);
  message : option string;
  content : list Content.t
}.
End LogsResponse.

Definition textContent (text : string) : list Content.t :=
  [Content.mk "text" text].

(** [${b}] for a boolean and for a possibly undefined string. *)
Definition string_of_bool (b : bool) : string :=
  if b then "true" else "false".

Definition string_of_optional (s : option string) : string :=
  match s with Some s => s | None => "undefined" end.

(** A method call on the value [getEmailLogs] resolved to: only an array
    has [filter] and [sort]. *)
Definition asArray (method : string) (logs : LogJson)
  : M (list EmailLogEntry) :=
  match logs with
  | LogEntries l => ret l
  | LogNotArray =>
      throw (TypeError (cat ["logs."; method; " is not a function"]))
  end.

Section Handlers.

(** [new Date(s).getTime()]: the time value in milliseconds, [NaN] for
    a string that is no date. *)
Variable Date_getTime : string -> JsArray.Number.

(** requestHandler.ts:69-72 *)
Definition newestFirst (a b : EmailLogEntry) : JsArray.Number :=
  JsArray.sub (Date_getTime (timestamp b)) (Date_getTime (timestamp a)).

(** The [get-email-logs] case of the tool switch in
    [setupRequestHandlers] (requestHandler.ts:52-108). [limit] is an
    integer when given. *)
Definition handleGetEmailLogs (limit : option Z)
    (filterBySuccess : option bool) : M LogsResponse.t :=
  try_catch
    (logs <- Config.getEmailLogs ;;
     logs <-
       match filterBySuccess with
       | Some f =>
           l <- asArray "filter" logs ;;
           ret (LogEntries
                  (filter (fun log => Bool.eqb (success log) f) l))
       | None => ret logs
       end ;;
     logs <- asArray "sort" logs ;;
     let logs := JsArray.sort newestFirst logs in
     let logs :=
       match limit with
       | Some n =>
           if negb (n =? 0)%Z && (0 <? n)%Z
           then JsArray.slice0 n logs
           else logs
       | None => logs
       end in
     ret (LogsResponse.mk true (Some logs) None
            (textContent
               (cat ["📋 Retrieved "; string_of_nat (List.length logs);
                     " email log";
                     if negb (List.length logs =? 1) then "s" else "";
                     match filterBySuccess with
                     | Some f => cat [" (filtered by success=";
                                      string_of_bool f; ")"]
                     | None => ""
                     end]))))
    (fun error =>
       logToFile (cat ["Error getting email logs: "; toString error]) ;;;
       ret (LogsResponse.mk false None
              (Some "Failed to retrieve email logs")
              (textContent "❌ Failed to retrieve email logs"))).

(** [sendEmail] and [sendBulkEmails] of [emailService.ts]. *)
Variable sendEmail : EmailData.t -> option string -> M SendResult.t.
Variable sendBulkEmails : BulkEmailData.t -> option string -> M BulkResult.t.

(** requestHandler.ts:121-169 *)
Definition handleSendEmail (parameters : SendEmailParams.t)
  : M SendEmailResponse.t :=
  try_catch
    (let to :=
       match SendEmailParams.to parameters with
       | ToArray l => l
       | ToObject r => [r]
       end in
     let emailData :=
       EmailData.mk to
         (SendEmailParams.subject parameters)
         (SendEmailParams.body parameters)
         (SendEmailParams.from parameters)
         (SendEmailParams.cc parameters)
         (SendEmailParams.bcc parameters)
         (SendEmailParams.templateId parameters)
         (SendEmailParams.templateData parameters) in
     result <- sendEmail emailData (SendEmailParams.smtpConfigId parameters) ;;
     ret (SendEmailResponse.mk
            (SendResult.success result)
            (SendResult.message result)
            (textContent
               (if SendResult.success result
                then "✅ Email sent successfully"
                else cat ["❌ Failed to send email: ";
                          string_of_optional (SendResult.message result)]))))
    (fun error =>
       logToFile "Error in handleSendEmail:" ;;;
       logToFile (Js.message error) ;;;
       ret (SendEmailResponse.mk false (Some (Js.message error))
              (textContent (cat ["❌ Error sending email: ";
                                 Js.message error])))).

(** requestHandler.ts:174-226 *)
Definition handleSendBulkEmails (parameters : SendBulkParams.t)
  : M SendBulkResponse.t :=
  try_catch
    (let bulkEmailData :=
       BulkEmailData.mk
         (SendBulkParams.recipients parameters)
         (SendBulkParams.subject parameters)
         (SendBulkParams.body parameters)
         (SendBulkParams.from parameters)
         (SendBulkParams.cc parameters)
         (SendBulkParams.bcc parameters)
         (SendBulkParams.templateId parameters)
         (SendBulkParams.templateData parameters)
         (SendBulkParams.batchSize parameters)
         (SendBulkParams.delayBetweenBatches parameters) in
     result <- sendBulkEmails bulkEmailData
                 (SendBulkParams.smtpConfigId parameters) ;;
     ret (SendBulkResponse.mk
            (BulkResult.success result)
            (BulkResult.totalSent result)
            (BulkResult.totalFailed result)
            (Some (BulkResult.failures result))
            (BulkResult.message result)
            (textContent
               (if BulkResult.success result
                then cat ["✅ Bulk email operation completed: ";
                          string_of_nat (BulkResult.totalSent result);
                          " sent, ";
                          string_of_nat (BulkResult.totalFailed result);
                          " failed"]
                else cat ["⚠️ Bulk email operation completed with issues: ";
                          string_of_nat (BulkResult.totalSent result);
                          " sent, ";
                          string_of_nat (BulkResult.totalFailed result);
                          " failed. "; BulkResult.message result]))))
    (fun error =>
       logToFile "Error in handleSendBulkEmails:" ;;;
       logToFile (Js.message error) ;;;
       ret (SendBulkResponse.mk false 0
              (match SendBulkParams.recipients parameters with
               | Some l => if List.length l =? 0 then 0 else List.length l
               | None => 0
               end)
              None
              (Js.message error)
              (textContent (cat ["❌ Bulk email operation failed: ";
                                 Js.message error])))).

Variable base64_decode : string -> string.
Variable JSON_parse : string -> Completion Json.
Variable JSON_stringify : SmtpServerConfig -> string.

(** requestHandler.ts:231-263 *)
Definition handleGetSmtpConfigs : M ConfigsResponse.t :=
  try_catch
    (configs <- Config.getSmtpConfigs base64_decode JSON_parse ;;
     ret (ConfigsResponse.mk true (Some configs) None
            (textContent
               (cat ["📧 Retrieved "; string_of_nat (List.length configs);
                     " SMTP configuration";
                     if negb (List.length configs =? 1) then "s" else "";
                     " "; String (ascii_of_nat 10) EmptyString; " ";
                     String.concat "," (map JSON_stringify configs)]))))
    (fun error =>
       logToFile "Error in handleGetSmtpConfigs:" ;;;
       logToFile (Js.message error) ;;;
       ret (ConfigsResponse.mk false None (Some (Js.message error))
              (textContent
                 (cat ["❌ Failed to retrieve SMTP configurations: ";
                       Js.message error])))).

End Handlers.

End RequestHandler.

(** ** [src/tools.ts] *)

Module Tools.

Unset Elimination Schemes.

(** A JSON schema as the tool definitions write it: each key is present
    or left out. *)
Inductive Schema :=
| mkSchema (type : string)
           (description : option string)
           (items : option Schema)
           (properties : option (list (string * Schema)))
           (required : option (list string)).
Set Elimination Schemes.

Module Tool.
Record t := mk { name : string; description : string; inputSchema : Schema }.
End Tool.

Definition stringSchema : Schema := mkSchema "string" None None None None.

(** [{ email, name }] with [email] required: the items of [to], [cc],
    [bcc] and [recipients]. *)
Definition recipientItem : Schema :=
  mkSchema "object" None None
    (Some [("email", stringSchema); ("name", stringSchema)])
    (Some ["email"]).

Definition recipientArray (description : string) : Schema :=
  mkSchema "array" (Some description) (Some recipientItem) None None.

Definition described (type description : string) : Schema :=
  mkSchema type (Some description) None None None.

Definition fromSchema : Schema :=
  mkSchema "object"
    (Some "Sender information. If not provided, the default SMTP user will be used.")
    None
    (Some [("email", stringSchema); ("name", stringSchema)])
    None.

Definition templateIdSchema : Schema :=
  described "string"
    "ID of the email template to use. If not provided, the email will use the subject and body provided.".

Definition templateDataSchema : Schema :=
  described "object" "Data to be used for template variable substitution".

Definition smtpConfigIdSchema : Schema :=
  described "string"
    "ID of the SMTP configuration to use. If not provided, the default configuration will be used.".

(** tools.ts:5-203; an object literal, its keys in source order. *)
Definition createToolDefinitions : list (string * Tool.t) :=
  [("send-email",
    Tool.mk "send-email" "Send an email to one or more recipients"
      (mkSchema "object" None None
         (Some [("to", recipientArray "Array of recipients");
                ("subject", described "string" "Email subject");
                ("body", described "string" "Email body (HTML supported)");
                ("from", fromSchema);
                ("cc", recipientArray "Array of CC recipients");
                ("bcc", recipientArray "Array of BCC recipients");
                ("templateId", templateIdSchema);
                ("templateData", templateDataSchema);
                ("smtpConfigId", smtpConfigIdSchema)])
         (Some ["to"; "subject"; "body"])));
   ("send-bulk-emails",
    Tool.mk "send-bulk-emails"
      "Send emails in bulk to multiple recipients with rate limiting"
      (mkSchema "object" None None
         (Some [("recipients", recipientArray "Array of recipients");
                ("subject", described "string" "Email subject");
                ("body", described "string" "Email body (HTML supported)");
                ("from", fromSchema);
                ("cc", recipientArray "Array of CC recipients");
                ("bcc", recipientArray "Array of BCC recipients");
                ("templateId", templateIdSchema);
                ("templateData", templateDataSchema);
                ("batchSize",
                 described "number"
                   "Number of emails to send in each batch (default: 10)");
                ("delayBetweenBatches",
                 described "number"
                   "Delay between batches in milliseconds (default: 1000)");
                ("smtpConfigId", smtpConfigIdSchema)])
         (Some ["recipients"; "subject"; "body"])));
   ("get-smtp-configs",
    Tool.mk "get-smtp-configs" "Get all SMTP configurations"
      (mkSchema "object" None None (Some []) (Some [])));
   ("get-email-logs",
    Tool.mk "get-email-logs" "Get logs of all email sending activity"
      (mkSchema "object" None None
         (Some [("limit",
                 described "number"
                   "Maximum number of log entries to return (most recent first)");
                ("filterBySuccess",
                 described "boolean"
                   "Filter logs by success status (true = successful emails, false = failed emails)")])
         None))].

End Tools.

(** ** [src/requestHandler.ts]: the two request handlers of the server *)

Module ToolRequests.

Import EmailService RequestHandler.

(** The names every object inherits from [Object.prototype]: [tools[name]]
    is a function or an object, hence truthy, for each of them. *)
Definition Object_prototype_names : list string :=
  ["constructor"; "__defineGetter__"; "__defineSetter__"; "hasOwnProperty";
   "__lookupGetter__"; "__lookupSetter__"; "isPrototypeOf";
   "propertyIsEnumerable"; "toString"; "valueOf"; "__proto__";
   "toLocaleString"].

(** Truthiness of [tools[toolName]] for a plain object [tools] whose own
    values are tool definitions. *)
Definition hasTool (tools : list (string * Tools.Tool.t)) (toolName : string)
  : bool :=
  existsb (fun kv => String.eqb (fst kv) toolName) tools
  || existsb (String.eqb toolName) Object_prototype_names.

(** What a tool call resolves to: the answer of the handler that ran. *)
Inductive CallToolResult :=
| SendEmailResult (r : SendEmailResponse.t)
| SendBulkResult (r : SendBulkResponse.t)
| ConfigsResult (r : ConfigsResponse.t)
| LogsResult (r : LogsResponse.t).

(** The handler of [ListToolsRequestSchema] (requestHandler.ts:25-29):
    [Object.values(tools)]. *)
Definition listTools (tools : list (string * Tools.Tool.t))
  : list Tools.Tool.t :=
  map snd tools.

Section CallTool.

(** The untyped [arguments] object of a request, and how each handler
    reads it: [parameters: any] in the two send handlers, the
    destructuring cast of line 53 in [get-email-logs]. *)
Variable Arguments : Type.
Variable emptyObject : Arguments.
Variable sendEmailParameters : Arguments -> SendEmailParams.t.
Variable sendBulkParameters : Arguments -> SendBulkParams.t.
Variable limitOf : Arguments -> option Z.
Variable filterBySuccessOf : Arguments -> option bool.

Variable Date_getTime : string -> JsArray.Number.
Variable sendEmail : EmailData.t -> option string -> M SendResult.t.
Variable sendBulkEmails : BulkEmailData.t -> option string -> M BulkResult.t.
Variable base64_decode : string -> string.
Variable JSON_parse : string -> Completion Json.
Variable JSON_stringify : SmtpServerConfig -> string.

(** The handler of [CallToolRequestSchema] (requestHandler.ts:32-115). *)
Definition callTool (tools : list (string * Tools.Tool.t))
    (toolName : string) (arguments : option Arguments) : M CallToolResult :=
  let toolParams :=
    match arguments with Some a => a | None => emptyObject end in
  if negb (hasTool tools toolName)
  then throw (newError (cat ["Tool '"; toolName; "' not found"]))
  else if String.eqb toolName "send-email"
  then
    r <- handleSendEmail sendEmail (sendEmailParameters toolParams) ;;
    ret (SendEmailResult r)
  else if String.eqb toolName "send-bulk-emails"
  then
    r <- handleSendBulkEmails sendBulkEmails (sendBulkParameters toolParams) ;;
    ret (SendBulkResult r)
  else if String.eqb toolName "get-smtp-configs"
  then
    r <- handleGetSmtpConfigs base64_decode JSON_parse JSON_stringify ;;
    ret (ConfigsResult r)
  else if String.eqb toolName "get-email-logs"
  then
    r <- handleGetEmailLogs Date_getTime (limitOf toolParams)
                            (filterBySuccessOf toolParams) ;;
    ret (LogsResult r)
  else
    throw (newError (cat ["Tool '"; toolName;
                          "' exists but no handler is implemented"])).

End CallTool.

End ToolRequests.

(** * Vocabulary of the properties *)

Import EmailService.

(** ** The audit log *)

(** The entry sequence the log holds: empty while no file exists, the
    array in the file otherwise; [None] when the file cannot be read as an
    array of entries. *)
Definition storedLog (w : World) : option (list EmailLogEntry) :=
  match logFile (disk w) with
  | None => Some []
  | Some (Parsed (LogEntries l)) => Some l
  | Some (Parsed LogNotArray) | Some (ReadFails _) => None
  end.

(** Every storage operation of one append succeeds. *)
Definition storageOk (w : World) : bool :=
  match ensureDir_error (disk w), storedLog w, writeJson_outcome (disk w) with
  | None, Some _, WriteOk => true
  | _, _, _ => false
  end.

(** ** Reading the log *)

(** Largest key first. *)
Definition descending {A : Type} (key : A -> Z) (a b : A) : Prop :=
  (key b <= key a)%Z.

Section LogVocabulary.

Variable Date_getTime : string -> JsArray.Number.

(** The entry's timestamp is a date. *)
Definition validTimestamp (e : EmailLogEntry) : bool :=
  match Date_getTime (timestamp e) with Some _ => true | None => false end.

(** The time value of an entry whose timestamp is a date. *)
Definition timeOf (e : EmailLogEntry) : Z :=
  match Date_getTime (timestamp e) with Some t => t | None => 0%Z end.

(** [a] is at least as recent as [b]. *)
Definition newerOrSame (a b : EmailLogEntry) : Prop :=
  (timeOf b <= timeOf a)%Z.

(** The stored entries a request selects. *)
Definition matching (filterBySuccess : option bool) (L : list EmailLogEntry)
  : list EmailLogEntry :=
  match filterBySuccess with
  | Some f => filter (fun log => Bool.eqb (success log) f) L
  | None => L
  end.

Definition limited (limit : option Z) (l : list EmailLogEntry)
  : list EmailLogEntry :=
  match limit with
  | Some n => if (0 <? n)%Z then firstn (Z.to_nat n) l else l
  | None => l
  end.

End LogVocabulary.

(** ** Loading the relay configuration *)

(** What the loader finds in the environment. *)
Inductive Loaded :=
| NoEnv
| Unparsable (e : Error)
| ParsedNull
| ParsedValue (p : ServersProp) (limit : option RateLimitConfig).

Section LoadVocabulary.

Variable base64_decode : string -> string.
Variable JSON_parse : string -> Completion Json.

Definition loaded (w : World) : Loaded :=
  match SMTP_CONFIG_BASE64 w with
  | None => NoEnv
  | Some encoded =>
      if truthy_string encoded
      then match JSON_parse (base64_decode encoded) with
           | Throw e => Unparsable e
           | Return JsonNull => ParsedNull
           | Return (JsonValue _ p limit) => ParsedValue p limit
           end
      else NoEnv
  end.

(** The relay set is missing, not an array, or has no entries. *)
Definition emptyOrMalformed (p : ServersProp) : bool :=
  match p with
  | SPArray (_ :: _) => false
  | _ => true
  end.

Definition usable (w : World) : bool :=
  match loaded w with
  | ParsedValue p _ => negb (emptyOrMalformed p)
  | _ => false
  end.

(** The error a failed load throws. *)
Definition loadError (w : World) : Error :=
  match loaded w with
  | NoEnv => newError "No config in env!"
  | Unparsable e => e
  | ParsedNull => TypeError "Cannot convert undefined or null to object"
  | ParsedValue _ _ => newError "Config not parsed!"
  end.

(** The number of configs that carry the default flag. *)
Definition defaultCount (l : list SmtpServerConfig) : nat :=
  List.length (filter isDefault l).

Definition sameButLog (w w' : World) : Prop :=
  SMTP_CONFIG_BASE64 w' = SMTP_CONFIG_BASE64 w /\
  cachedSmtpConfig w' = cachedSmtpConfig w /\
  disk w' = disk w.

(** What lines 107-114 leave of the loaded relay set. *)
Definition normalized (servers : list SmtpServerConfig)
  : list SmtpServerConfig :=
  if existsb isDefault servers
  then servers
  else Config.markFirstDefault servers.

Definition rateLimitOf (limit : option RateLimitConfig) : RateLimit :=
  match limit with
  | Some r => RateLimitObject r
  | None => RateLimitNumber 30
  end.

End LoadVocabulary.

(** ** Requests *)

Import RequestHandler.

(** The request the handler builds (requestHandler.ts:177-188). *)
Definition requestOf (parameters : SendBulkParams.t) : BulkEmailData.t :=
  BulkEmailData.mk
    (SendBulkParams.recipients parameters)
    (SendBulkParams.subject parameters)
    (SendBulkParams.body parameters)
    (SendBulkParams.from parameters)
    (SendBulkParams.cc parameters)
    (SendBulkParams.bcc parameters)
    (SendBulkParams.templateId parameters)
    (SendBulkParams.templateData parameters)
    (SendBulkParams.batchSize parameters)
    (SendBulkParams.delayBetweenBatches parameters).

(** The number of recipients of a request. *)
Definition recipientCount (parameters : SendBulkParams.t) : nat :=
  match SendBulkParams.recipients parameters with
  | Some l => List.length l
  | None => 0
  end.

(** The message the handler hands to [sendEmail] for the recipient list
    [to] (requestHandler.ts:127-136). *)
Definition emailDataOf (parameters : SendEmailParams.t)
    (to : list EmailRecipient.t) : EmailData.t :=
  EmailData.mk to
    (SendEmailParams.subject parameters)
    (SendEmailParams.body parameters)
    (SendEmailParams.from parameters)
    (SendEmailParams.cc parameters)
    (SendEmailParams.bcc parameters)
    (SendEmailParams.templateId parameters)
    (SendEmailParams.templateData parameters).

(** The same request with another [to]. *)
Definition withTo (parameters : SendEmailParams.t)
    (to : ToParam) : SendEmailParams.t :=
  SendEmailParams.mk to
    (SendEmailParams.subject parameters)
    (SendEmailParams.body parameters)
    (SendEmailParams.from parameters)
    (SendEmailParams.cc parameters)
    (SendEmailParams.bcc parameters)
    (SendEmailParams.templateId parameters)
    (SendEmailParams.templateData parameters)
    (SendEmailParams.smtpConfigId parameters).

(** ** Further vocabulary *)

(** What is cached can be served: a relay list that is not empty and has a
    default relay. *)
Definition cacheSound (w : World) : Prop :=
  forall c, cachedSmtpConfig w = Some c ->
            smtpServers c <> [] /\ existsb isDefault (smtpServers c) = true.

(** Two worlds that differ in the audit log file and the server log at
    most. *)
Definition sameButFiles (w w' : World) : Prop :=
  SMTP_CONFIG_BASE64 w' = SMTP_CONFIG_BASE64 w /\
  cachedSmtpConfig w' = cachedSmtpConfig w /\
  ensureDir_error (disk w') = ensureDir_error (disk w) /\
  writeJson_outcome (disk w') = writeJson_outcome (disk w).

(** One append after the other, each awaited. *)
Fixpoint appendAll (entries : list EmailLogEntry) : M (list bool) :=
  match entries with
  | [] => ret []
  | e :: rest =>
      b <- Config.logEmailActivity e ;;
      bs <- appendAll rest ;;
      ret (b :: bs)
  end.

(** The tool names the switch of the call handler has a case for. *)
Definition handledNames : list string :=
  ["send-email"; "send-bulk-emails"; "get-smtp-configs"; "get-email-logs"].

(** ** Sample data *)

Module Sample.

Definition relayA : SmtpServerConfig :=
  mkServer "a" "Relay A" "smtp.a.example" 587 false
           (mkAuth "a@example.com" "secret-a") false.

Definition relayB : SmtpServerConfig :=
  mkServer "b" "Relay B" "smtp.b.example" 465 true
           (mkAuth "b@example.com" "secret-b") false.

(** A decoder and a parser that stand for [Buffer] and [JSON.parse] on one
    fixed configuration value. *)
Definition decode (s : string) : string := s.

Definition parseTo (j : Json) (s : string) : Completion Json := Return j.

Definition configOf (servers : list SmtpServerConfig) : Json :=
  JsonValue ["smtpServers"] (SPArray servers) None.

(** A freshly started server: nothing cached, no fault in the storage. *)
Definition world (file : option FileData) : World :=
  mkWorld (Some "e30=") None (mkDisk None file WriteOk) true [].

Definition day1 : string := "2024-01-01T00:00:00.000Z".
Definition day2 : string := "2024-01-02T00:00:00.000Z".
Definition day3 : string := "2024-01-03T00:00:00.000Z".

Definition getTime (s : string) : JsArray.Number :=
  if String.eqb s day1 then Some 1704067200000%Z
  else if String.eqb s day2 then Some 1704153600000%Z
  else if String.eqb s day3 then Some 1704240000000%Z
  else None.

Definition entry (ts recipient : string) (ok : bool) : EmailLogEntry :=
  mkLogEntry ts "a" None recipient "Hello" ok
             (if ok then None else Some "rejected").

Definition entries : list EmailLogEntry :=
  [entry day1 "u1@example.com" true;
   entry day3 "u2@example.com" false;
   entry day2 "u3@example.com" true;
   entry day3 "u4@example.com" true].

Definition logged : World := world (Some (Parsed (LogEntries entries))).

Definition recipientOf (address : string) : EmailRecipient.t :=
  EmailRecipient.mk address None.

(** A transport that refuses one address. *)
Definition transport (relay : SmtpServerConfig) (msg : Message.t) : M unit :=
  if existsb (fun r => String.eqb (EmailRecipient.email r) "bad@example.com")
             (Message.to msg)
  then throw (newError "550 mailbox unavailable")
  else ret tt.

Definition resolveTemplate (templateId : string)
    (data : option TemplateData) : M (string * string) :=
  throw (newError "TemplateError").

Definition now (w : World) : string := day1.

Definition summary (sent failed : nat) : string :=
  cat [string_of_nat sent; " sent, "; string_of_nat failed; " failed"].

(** A delivery service that accepts a message to exactly one recipient. *)
Definition sendEmail (data : EmailData.t) (smtpConfigId : option string)
  : M SendResult.t :=
  if List.length (EmailData.to data) =? 1
  then ret (SendResult.mk true None)
  else throw (newError "expected one recipient").

Definition single : SendEmailParams.t :=
  SendEmailParams.mk (ToObject (recipientOf "u1@example.com"))
    (Some "Hello") (Some "<p>Hello</p>") None None None None None None.

Definition bulk : SendBulkParams.t :=
  SendBulkParams.mk
    (Some [recipientOf "u1@example.com"; recipientOf "bad@example.com";
           recipientOf "u3@example.com"])
    (Some "Hello") (Some "<p>Hello</p>") None None None None None
    (Some 2) (Some 0) None.

End Sample.


(** ** More sample data *)

Module Scenario.

(** Storage states: a log that holds JSON which is no array, a log that
    cannot be read, and a disk on which writes fail and truncate. *)
Definition notArray : World := Sample.world (Some (Parsed LogNotArray)).

Definition unreadable : World :=
  Sample.world (Some (ReadFails (newError "EACCES: permission denied"))).

Definition diskFull : World :=
  mkWorld (Some "e30=") None
          (mkDisk None (Some (Parsed (LogEntries Sample.entries)))
                  (WriteFails (newError "ENOSPC: no space left on device")
                              None))
          true [].

Definition older : list EmailLogEntry :=
  [Sample.entry Sample.day2 "u1@example.com" true;
   Sample.entry Sample.day1 "u2@example.com" true].

Definition latest : EmailLogEntry :=
  Sample.entry Sample.day3 "u3@example.com" true.

Definition reversed : World :=
  Sample.world (Some (Parsed (LogEntries (rev Sample.entries)))).

(** A server whose relay set is loaded, and one whose environment holds
    no relay. *)
Definition oneRelay : Json := Sample.configOf [Sample.relayA].

Definition noRelay : Json := Sample.configOf [].

(** Arguments objects reduced to what the handlers read. *)
Definition sendEmailParameters (a : unit) : SendEmailParams.t := Sample.single.

Definition sendBulkParameters (a : unit) : SendBulkParams.t := Sample.bulk.

Definition limitOf (a : unit) : option Z := None.

Definition filterBySuccessOf (a : unit) : option bool := None.

Definition stringify (c : SmtpServerConfig) : string := id c.

Definition call (toolName : string) : M ToolRequests.CallToolResult :=
  ToolRequests.callTool unit tt sendEmailParameters sendBulkParameters
    limitOf filterBySuccessOf Sample.getTime Sample.sendEmail
    (sendBulkEmails Sample.decode (Sample.parseTo oneRelay)
       Sample.resolveTemplate Sample.transport Sample.now Sample.summary)
    Sample.decode (Sample.parseTo oneRelay) stringify
    Tools.createToolDefinitions toolName None.

(** A log with one entry whose timestamp is no date. *)
Definition dated1 : EmailLogEntry := Sample.entry Sample.day1 "u1@example.com" true.

Definition undated : EmailLogEntry := Sample.entry "not-a-date" "u2@example.com" true.

Definition dated3 : EmailLogEntry := Sample.entry Sample.day3 "u3@example.com" true.

Definition partlyDated : World :=
  Sample.world (Some (Parsed (LogEntries [dated1; undated; dated3]))).

(** Two appends started together: each reads the log before either
    writes. *)
Definition other : EmailLogEntry :=
  Sample.entry Sample.day3 "u9@example.com" false.

Definition overlap : list bool :=
  [true; true; true; false; false; false; true; false].

(** The rest of the program writes to the server log and leaves the disk
    alone. *)
Definition chatter (n : nat) (w : World) : World :=
  appendServerLog "SMTP MCP Server started successfully" w.

End Scenario.

(** * Properties *)

(** ** Batching *)

Section Batching.

Context {A : Type}.
Implicit Types (l : list A) (B fuel : nat).

Lemma batchesFrom_nil fuel B : batchesFrom fuel B (@nil A) = [].
Proof. destruct fuel; reflexivity. Qed.

Lemma batchesFrom_concat fuel : forall B l,
  1 <= B -> List.length l <= fuel ->
  List.concat (batchesFrom fuel B l) = l.
Proof.
  induction fuel as [|fuel IH]; intros B l HB Hlen.
  - destruct l; [reflexivity | cbn [List.length] in Hlen; lia].
  - destruct l as [|x l']; [reflexivity|].
    cbn [batchesFrom List.concat].
    rewrite IH; [apply firstn_skipn | exact HB |].
    rewrite length_skipn. cbn [List.length] in *. lia.
Qed.

Lemma ceil_step n B : 1 <= B -> B <= n -> (n + B - 1) / B = S ((n - B + B - 1) / B).
Proof.
  intros HB Hn.
  replace (n + B - 1) with ((n - B + B - 1) + 1 * B) by lia.
  rewrite Nat.div_add by lia. lia.
Qed.

Lemma ceil_small n B : 1 <= n -> n <= B -> (n + B - 1) / B = 1.
Proof.
  intros Hn HB. symmetry.
  apply Nat.div_unique with (r := n - 1); lia.
Qed.

Lemma batchesFrom_length fuel : forall B l,
  1 <= B -> List.length l <= fuel ->
  List.length (batchesFrom fuel B l) = (List.length l + B - 1) / B.
Proof.
  induction fuel as [|fuel IH]; intros B l HB Hlen.
  - destruct l; [|cbn [List.length] in Hlen; lia].
    cbn [batchesFrom List.length]. rewrite Nat.div_small; lia.
  - destruct l as [|x l'].
    { cbn [batchesFrom List.length]. rewrite Nat.div_small; lia. }
    cbn [batchesFrom].
    assert (Hn : 1 <= List.length (x :: l')) by (cbn [List.length]; lia).
    set (l := x :: l') in *.
    cbn [List.length].
    rewrite IH by (try rewrite length_skipn; lia).
    rewrite length_skipn.
    destruct (Nat.le_gt_cases B (List.length l)) as [Hge|Hlt].
    + rewrite (ceil_step _ B HB Hge). reflexivity.
    + replace (List.length l - B) with 0 by lia.
      rewrite (ceil_small (List.length l) B) by lia.
      rewrite Nat.div_small; lia.
Qed.

Lemma batchesFrom_full fuel : forall B l i,
  1 <= B -> List.length l <= fuel ->
  S i < List.length (batchesFrom fuel B l) ->
  List.length (nth i (batchesFrom fuel B l) []) = B.
Proof.
  induction fuel as [|fuel IH]; intros B l i HB Hlen Hi.
  - cbn [List.length batchesFrom] in Hi. lia.
  - destruct l as [|x l']; [cbn [List.length batchesFrom] in Hi; lia|].
    cbn [batchesFrom] in *. cbn [List.length] in Hi.
    assert (Hrest : List.length (skipn B (x :: l')) <= fuel)
      by (rewrite length_skipn; cbn [List.length] in *; lia).
    destruct i as [|i].
    + cbn [nth]. rewrite length_firstn.
      destruct (Nat.le_gt_cases B (List.length (x :: l'))) as [Hge|Hlt]; [lia|].
      exfalso.
      rewrite skipn_all2 in Hi by lia.
      rewrite batchesFrom_nil in Hi. cbn [List.length batchesFrom] in Hi. lia.
    + cbn [nth]. apply IH; [exact HB | exact Hrest | lia].
Qed.

Lemma batchesFrom_sizes fuel : forall B l,
  1 <= B ->
  Forall (fun b => 1 <= List.length b <= B) (batchesFrom fuel B l).
Proof.
  induction fuel as [|fuel IH]; intros B l HB; [constructor|].
  destruct l as [|x l']; [constructor|].
  cbn [batchesFrom]. constructor; [|apply IH; exact HB].
  rewrite length_firstn. simpl. lia.
Qed.

End Batching.

(** [(N + B - 1) / B] is the ceiling of [N / B]: the least number of groups
    of size [B] that hold [N] elements. *)
Lemma ceil_div_least (N B : nat) :
  1 <= B ->
  N <= ((N + B - 1) / B) * B /\
  (forall k, N <= k * B -> (N + B - 1) / B <= k).
Proof.
  intros HB. split.
  - pose proof (Nat.div_mod_eq (N + B - 1) B) as E.
    assert (U : (N + B - 1) mod B < B) by (apply Nat.mod_upper_bound; lia).
    nia.
  - intros k Hk. apply Nat.lt_succ_r.
    apply Nat.Div0.div_lt_upper_bound. nia.
Qed.

(** C1. For a recipient list of length [N] and a batch size [B >= 1], the
    engine's partition has [ceil(N/B)] groups; their concatenation in order
    is the original list (so the groups are contiguous); every group but
    the last has exactly [B] elements, and every group, the last included,
    has between 1 and [B]. *)
Theorem partitionBatches_ceil_contiguous (A : Type) (B : nat) (l : list A) :
  1 <= B ->
  let batches := partitionBatches B l in
  List.length batches = (List.length l + B - 1) / B /\
  List.concat batches = l /\
  (forall i, S i < List.length batches ->
             List.length (nth i batches []) = B) /\
  Forall (fun b => 1 <= List.length b <= B) batches.
Proof.
  intros HB batches. subst batches. unfold partitionBatches.
  repeat split.
  - apply batchesFrom_length; [exact HB | apply Nat.le_refl].
  - apply batchesFrom_concat; [exact HB | apply Nat.le_refl].
  - intros i Hi. apply batchesFrom_full; [exact HB | apply Nat.le_refl | exact Hi].
  - apply batchesFrom_sizes. exact HB.
Qed.

(** The scenario of the specification: 25 recipients in batches of 10. *)
Lemma partitionBatches_25_by_10 :
  1 <= 10 /\
  (let batches := partitionBatches 10 (seq 0 25) in
   List.length batches = (List.length (seq 0 25) + 10 - 1) / 10 /\
   List.concat batches = seq 0 25 /\
   (forall i, S i < List.length batches ->
              List.length (nth i batches []) = 10) /\
   Forall (fun b => 1 <= List.length b <= 10) batches).
Proof.
  split; [lia | apply (partitionBatches_ceil_contiguous nat 10 (seq 0 25)); lia].
Defined.

Example partitionBatches_25_by_10_sizes :
  map (@List.length nat) (partitionBatches 10 (seq 0 25)) = [10; 10; 5].
Proof. reflexivity. Qed.

(** ** The audit log *)

Ltac run_js :=
  unfold Config.logEmailActivity, Config.getEmailLogs, Config.fs_ensureDir,
    Config.fs_pathExists, Config.fs_readJson, Config.fs_writeJson,
    Config.push, Config.set_logFile, logToFile, try_catch, bind, ret,
    throw, get_world; cbn.

Lemma logEmailActivity_returns (entry : EmailLogEntry) (w : World) :
  exists b w', Config.logEmailActivity entry w = (Return b, w').
Proof.
  destruct w as [env cache [ed lf wo] lw sl].
  destruct ed as [e|]; [run_js; eauto|].
  destruct lf as [[e|[|l]]|], wo as [|e' rem]; run_js; eauto.
Qed.

(** C7. For every entry and every state of the storage (the directory
    cannot be made, the file cannot be read or parsed or holds no array,
    the write fails) the append operation returns a boolean and does not
    throw: [true] exactly when every storage operation succeeded. *)
Theorem logEmailActivity_never_throws (entry : EmailLogEntry) (w : World) :
  exists w', Config.logEmailActivity entry w = (Return (storageOk w), w').
Proof.
  destruct w as [env cache [ed lf wo] lw sl]. unfold storageOk, storedLog.
  destruct ed as [e|]; [run_js; eauto|].
  destruct lf as [[e|[|l]]|], wo as [|e' rem]; run_js; eauto.
Qed.

(** ** Reading the log: filter, sort, limit *)

Section Sorting.

Context {A : Type}.
Variable comparefn : A -> A -> JsArray.Number.

Lemma insert_perm (x : A) (l : list A) :
  Permutation (JsArray.insert comparefn x l) (x :: l).
Proof.
  induction l as [|y l IH]; cbn [JsArray.insert]; [reflexivity|].
  destruct (JsArray.sortCompare comparefn x y <=? 0)%Z; [reflexivity|].
  rewrite IH. apply perm_swap.
Qed.

Lemma sort_perm (l : list A) : Permutation (JsArray.sort comparefn l) l.
Proof.
  induction l as [|x l IH]; [reflexivity|].
  unfold JsArray.sort in *. cbn [fold_right].
  rewrite insert_perm. constructor. exact IH.
Qed.

(** The comparator is consistent when it is the difference of an
    integer key, largest key first. *)
Variable key : A -> Z.
Variable ok : A -> Prop.
Hypothesis comparefn_key :
  forall x y, ok x -> ok y ->
              JsArray.sortCompare comparefn x y = (key y - key x)%Z.

Lemma insert_sorted (x : A) (l : list A) :
  ok x -> Forall ok l ->
  StronglySorted (descending key) l ->
  StronglySorted (descending key) (JsArray.insert comparefn x l).
Proof.
  intros Hx Hl Hs. induction Hs as [|y l Hs IH Hy].
  - cbn. constructor; constructor.
  - cbn [JsArray.insert].
    pose proof (Forall_inv Hl) as Hoky.
    pose proof (Forall_inv_tail Hl) as Hokl.
    rewrite (comparefn_key x y Hx Hoky).
    destruct (key y - key x <=? 0)%Z eqn:E.
    + apply Z.leb_le in E.
      constructor; [constructor; assumption|].
      constructor; [unfold descending; lia|].
      eapply Forall_impl; [|exact Hy].
      unfold descending. intros z Hz. lia.
    + apply Z.leb_gt in E.
      constructor; [apply IH; exact Hokl|].
      eapply Permutation_Forall; [symmetry; apply insert_perm|].
      constructor; [unfold descending; lia | exact Hy].
Qed.

Lemma sort_sorted (l : list A) :
  Forall ok l -> StronglySorted (descending key) (JsArray.sort comparefn l).
Proof.
  induction l as [|x l IH]; intros Hl; [constructor|].
  unfold JsArray.sort in *. cbn [fold_right].
  apply insert_sorted.
  - exact (Forall_inv Hl).
  - eapply Permutation_Forall; [symmetry; apply sort_perm|].
    exact (Forall_inv_tail Hl).
  - apply IH. exact (Forall_inv_tail Hl).
Qed.

Lemma In_firstn (n : nat) (l : list A) (x : A) :
  In x (firstn n l) -> In x l.
Proof.
  intros H. rewrite <- (firstn_skipn n l). apply in_or_app. left. exact H.
Qed.

Lemma In_skipn (n : nat) (l : list A) (x : A) :
  In x (skipn n l) -> In x l.
Proof.
  intros H. rewrite <- (firstn_skipn n l). apply in_or_app. right. exact H.
Qed.

(** A prefix of a sorted list dominates the rest. *)
Lemma sorted_prefix_dominates (n : nat) (l : list A) :
  StronglySorted (descending key) l ->
  forall x y, In x (firstn n l) -> In y (skipn n l) -> descending key x y.
Proof.
  intros Hs. revert n. induction Hs as [|a l Hs IH Ha]; intros n x y Hx Hy.
  - rewrite firstn_nil in Hx. contradiction.
  - destruct n as [|n]; [contradiction|].
    cbn [firstn skipn] in *. destruct Hx as [<-|Hx].
    + rewrite Forall_forall in Ha. apply Ha.
      apply (In_skipn n). exact Hy.
    + eapply IH; eassumption.
Qed.

Lemma sorted_firstn (n : nat) (l : list A) :
  StronglySorted (descending key) l -> StronglySorted (descending key) (firstn n l).
Proof.
  intros Hs. revert n. induction Hs as [|a l Hs IH Ha]; intros n.
  - rewrite firstn_nil. constructor.
  - destruct n as [|n]; [constructor|].
    cbn [firstn]. constructor; [apply IH|].
    rewrite Forall_forall in *. intros z Hz. apply Ha.
    apply (In_firstn n). exact Hz.
Qed.

End Sorting.

Section ReadingLogs.

Import RequestHandler.

Variable Date_getTime : string -> JsArray.Number.

Lemma newestFirst_timeOf (x y : EmailLogEntry) :
  validTimestamp Date_getTime x = true ->
  validTimestamp Date_getTime y = true ->
  JsArray.sortCompare (newestFirst Date_getTime) x y
  = (timeOf Date_getTime y - timeOf Date_getTime x)%Z.
Proof.
  unfold validTimestamp, timeOf, JsArray.sortCompare, newestFirst, JsArray.sub.
  destruct (Date_getTime (timestamp x)), (Date_getTime (timestamp y));
    intros Hx Hy; try discriminate; reflexivity.
Qed.

(** What the handler answers when the log holds [L]. *)
Lemma handleGetEmailLogs_run (limit : option Z) (f : option bool)
    (w : World) (L : list EmailLogEntry) :
  storedLog w = Some L ->
  exists content,
    handleGetEmailLogs Date_getTime limit f w
    = (Return (LogsResponse.mk true
                 (Some (limited limit
                          (JsArray.sort (newestFirst Date_getTime)
                                        (matching f L))))
                 None content), w).
Proof.
  intros HL. destruct w as [env cache [ed lf wo] lw sl].
  unfold storedLog in HL. cbn in HL.
  assert (Hget : Config.getEmailLogs
                   (mkWorld env cache (mkDisk ed lf wo) lw sl)
                 = (Return (LogEntries L),
                    mkWorld env cache (mkDisk ed lf wo) lw sl)).
  { destruct lf as [[e|[|l]]|]; try discriminate HL;
      injection HL as <-; reflexivity. }
  unfold handleGetEmailLogs, try_catch, bind. rewrite Hget.
  unfold limited, matching, JsArray.slice0.
  destruct f as [b|], limit as [n|]; cbn [asArray ret];
    try (destruct (Z.eqb_spec n 0) as [->|Hn]; cbn [negb andb];
         [|destruct (0 <? n)%Z]);
    eexists; reflexivity.
Qed.

End ReadingLogs.

Section LogQueries.

Import RequestHandler.

Variable Date_getTime : string -> JsArray.Number.

Local Abbreviation sorted_matching f L :=
  (JsArray.sort (newestFirst Date_getTime) (matching f L)).

Lemma sorted_matching_perm (f : option bool) (L : list EmailLogEntry) :
  Permutation (sorted_matching f L) (matching f L).
Proof. apply sort_perm. Qed.

Lemma sorted_matching_sorted (f : option bool) (L : list EmailLogEntry) :
  forallb (validTimestamp Date_getTime) (matching f L) = true ->
  StronglySorted (newerOrSame Date_getTime) (sorted_matching f L).
Proof.
  intros Hv.
  apply (sort_sorted (newestFirst Date_getTime) (timeOf Date_getTime)
           (fun e => validTimestamp Date_getTime e = true)).
  - intros x y. apply newestFirst_timeOf.
  - apply Forall_forall. intros e He.
    rewrite forallb_forall in Hv. apply Hv. exact He.
Qed.

Lemma matching_flag (f : bool) (L : list EmailLogEntry) (e : EmailLogEntry) :
  In e (matching (Some f) L) <-> In e L /\ success e = f.
Proof.
  unfold matching. rewrite filter_In.
  split; intros [H1 H2]; split; try exact H1.
  - apply Bool.eqb_prop. exact H2.
  - rewrite H2. apply Bool.eqb_reflx.
Qed.

Lemma limited_incl (limit : option Z) (l : list EmailLogEntry) (e : EmailLogEntry) :
  In e (limited limit l) -> In e l.
Proof.
  unfold limited. destruct limit as [n|]; [|trivial].
  destruct (0 <? n)%Z; [apply In_firstn | trivial].
Qed.

Lemma limited_sorted (limit : option Z) (l : list EmailLogEntry) :
  StronglySorted (newerOrSame Date_getTime) l ->
  StronglySorted (newerOrSame Date_getTime) (limited limit l).
Proof.
  intros Hs. unfold limited. destruct limit as [n|]; [|exact Hs].
  destruct (0 <? n)%Z; [|exact Hs].
  exact (sorted_firstn (timeOf Date_getTime) (Z.to_nat n) l Hs).
Qed.

(** C5, as the code has it. When the log holds [L], [get-email-logs] with
    [filterBySuccess = f]
    (for [f] true and for [f] false alike, with or without a limit)
    succeeds, and its result holds only stored entries whose success flag
    is [f]; without a limit it holds all of them. When the timestamps of
    these entries are dates, the result is sorted newest first. *)
Theorem get_email_logs_filtered_newest_first
    (limit : option Z) (f : bool) (L : list EmailLogEntry) (w : World) :
  storedLog w = Some L ->
  exists result content,
    handleGetEmailLogs Date_getTime limit (Some f) w
    = (Return (LogsResponse.mk true (Some result) None content), w) /\
    (forall e, In e result -> In e L /\ success e = f) /\
    (limit = None ->
     Permutation result (filter (fun e => Bool.eqb (success e) f) L)) /\
    (forallb (validTimestamp Date_getTime) (matching (Some f) L) = true ->
     StronglySorted (newerOrSame Date_getTime) result).
Proof.
  intros HL.
  destruct (handleGetEmailLogs_run Date_getTime limit (Some f) w L HL)
    as [content Hrun].
  eexists; exists content. split; [exact Hrun|].
  split; [|split].
  - intros e He. apply matching_flag.
    apply limited_incl in He.
    eapply Permutation_in; [apply sorted_matching_perm | exact He].
  - intros ->. apply sorted_matching_perm.
  - intros Hv. apply limited_sorted. apply sorted_matching_sorted. exact Hv.
Qed.

(** C6, as the code has it. When the log holds [L] and the limit [K] is
    positive,
    [get-email-logs] returns at most [K] entries: as many as [K] allows of
    the entries matching the filter. When the timestamps of the matching
    entries are dates, the entries returned are the most recent ones: every
    matching entry left out is no newer than any entry returned, and the
    result is sorted newest first. *)
Theorem get_email_logs_limit_most_recent
    (K : Z) (f : option bool) (L : list EmailLogEntry) (w : World) :
  storedLog w = Some L ->
  (0 < K)%Z ->
  exists result content,
    handleGetEmailLogs Date_getTime (Some K) f w
    = (Return (LogsResponse.mk true (Some result) None content), w) /\
    (Z.of_nat (List.length result) <= K)%Z /\
    List.length result = Nat.min (Z.to_nat K) (List.length (matching f L)) /\
    exists rest,
      Permutation (result ++ rest) (matching f L) /\
      (forallb (validTimestamp Date_getTime) (matching f L) = true ->
       StronglySorted (newerOrSame Date_getTime) result /\
       forall x y, In x result -> In y rest -> newerOrSame Date_getTime x y).
Proof.
  intros HL HK.
  destruct (handleGetEmailLogs_run Date_getTime (Some K) f w L HL)
    as [content Hrun].
  unfold limited in Hrun.
  destruct (Z.ltb_spec 0 K) as [_|Hle]; [|lia].
  eexists; exists content. split; [exact Hrun|].
  split; [|split].
  - pose proof (firstn_le_length (Z.to_nat K) (sorted_matching f L)).
    lia.
  - rewrite length_firstn.
    rewrite (Permutation_length (sorted_matching_perm f L)). reflexivity.
  - exists (skipn (Z.to_nat K) (sorted_matching f L)). split.
    + rewrite firstn_skipn.
      apply sorted_matching_perm.
    + intros Hv. pose proof (sorted_matching_sorted f L Hv) as Hs. split.
      * exact (sorted_firstn (timeOf Date_getTime) (Z.to_nat K) _ Hs).
      * exact (sorted_prefix_dominates (timeOf Date_getTime) (Z.to_nat K) _ Hs).
Qed.

(** C9. When the log holds [L] and the limit is zero or negative, the
    limit is not applied: [get-email-logs] answers as it does without a
    limit, with all the entries matching the filter. *)
Theorem get_email_logs_nonpositive_limit_ignored
    (n : Z) (f : option bool) (L : list EmailLogEntry) (w : World) :
  storedLog w = Some L ->
  (n <= 0)%Z ->
  handleGetEmailLogs Date_getTime (Some n) f w
  = handleGetEmailLogs Date_getTime None f w /\
  exists result content,
    handleGetEmailLogs Date_getTime (Some n) f w
    = (Return (LogsResponse.mk true (Some result) None content), w) /\
    Permutation result (matching f L) /\
    List.length result = List.length (matching f L).
Proof.
  intros HL Hn. split.
  - unfold handleGetEmailLogs.
    destruct (Z.eqb_spec n 0) as [->|Hne]; [reflexivity|].
    destruct (Z.ltb_spec 0 n) as [Hpos|_]; [lia|]. reflexivity.
  - destruct (handleGetEmailLogs_run Date_getTime (Some n) f w L HL)
      as [content Hrun].
    unfold limited in Hrun.
    destruct (Z.ltb_spec 0 n) as [Hpos|_]; [lia|].
    eexists; exists content. split; [exact Hrun|]. split.
    + apply sorted_matching_perm.
    + apply Permutation_length. apply sorted_matching_perm.
Qed.

End LogQueries.

(** ** Loading the relay configuration *)

Section Loading.

Variable base64_decode : string -> string.
Variable JSON_parse : string -> Completion Json.

Lemma sameButLog_refl (w : World) : sameButLog w w.
Proof. repeat split. Qed.

Lemma sameButLog_append (line : string) (w w' : World) :
  sameButLog w w' -> sameButLog w (appendServerLog line w').
Proof.
  unfold sameButLog, appendServerLog.
  destruct (serverLogWritable w'); cbn; trivial.
Qed.

Lemma sameButLog_trans (w1 w2 w3 : World) :
  sameButLog w1 w2 -> sameButLog w2 w3 -> sameButLog w1 w3.
Proof.
  unfold sameButLog. intros (A1 & B1 & C1) (A2 & B2 & C2).
  repeat split; congruence.
Qed.

Ltac same_but_log :=
  repeat apply sameButLog_append; apply sameButLog_refl.

Lemma invalid_condition (p : ServersProp) :
  let p' := if Config.truthy p then p else SPArray [] in
  negb (Config.truthy p') || negb (Config.isArray p')
  || (List.length (Config.elements p') =? 0) = emptyOrMalformed p.
Proof.
  destruct p as [| |b|n|str| |[|srv rest]]; cbn; try reflexivity.
  - destruct b; reflexivity.
  - destruct (n =? 0)%Z eqn:E; cbn; rewrite ?E; reflexivity.
  - destruct str; reflexivity.
Qed.

Lemma parse_fails (w : World) :
  usable base64_decode JSON_parse w = false ->
  exists w', Config.parseSmtpConfigFromEnv base64_decode JSON_parse w
             = (Throw (loadError base64_decode JSON_parse w), w') /\ sameButLog w w'.
Proof.
  unfold usable, loadError, loaded.
  unfold Config.parseSmtpConfigFromEnv, try_catch, bind, get_world.
  destruct (SMTP_CONFIG_BASE64 w) as [[|c s]|]; cbn [truthy_string].
  - intros _. cbn. eexists. split; [reflexivity | same_but_log].
  - unfold Config.lift. cbn [logToFile].
    destruct (JSON_parse (base64_decode (String c s))) as [[|keys p limit]|e].
    + intros _. cbn. eexists. split; [reflexivity | same_but_log].
    + cbn [Config.Object_keys Config.prop_smtpServers ret].
      intros H. apply negb_false_iff in H.
      cbv zeta. rewrite (invalid_condition p), H. cbn.
      eexists. split; [reflexivity | same_but_log].
    + intros _. cbn. destruct (truthy_string (stack e)); cbn;
        eexists; (split; [reflexivity | same_but_log]).
  - intros _. cbn. eexists. split; [reflexivity | same_but_log].
Qed.

Lemma bind_Return {A B} (c : M A) (k : A -> M B) (w w' : World) (a : A) :
  c w = (Return a, w') -> bind c k w = k a w'.
Proof. unfold bind. intros ->. reflexivity. Qed.

Lemma bind_Throw {A B} (c : M A) (k : A -> M B) (w w' : World) (e : Error) :
  c w = (Throw e, w') -> bind c k w = (Throw e, w').
Proof. unfold bind. intros ->. reflexivity. Qed.

Lemma loaded_sameButLog (w w' : World) :
  sameButLog w w' -> loaded base64_decode JSON_parse w' = loaded base64_decode JSON_parse w.
Proof. unfold loaded. intros (-> & _). reflexivity. Qed.

Lemma parse_succeeds (w : World) (first : SmtpServerConfig)
    (rest : list SmtpServerConfig) (limit : option RateLimitConfig) :
  loaded base64_decode JSON_parse w = ParsedValue (SPArray (first :: rest)) limit ->
  exists w', Config.parseSmtpConfigFromEnv base64_decode JSON_parse w
             = (Return (mkSmtpConfig (normalized (first :: rest))
                                     (rateLimitOf limit)), w')
             /\ sameButLog w w'.
Proof.
  unfold loaded, normalized, rateLimitOf.
  unfold Config.parseSmtpConfigFromEnv, try_catch, bind, get_world.
  destruct (SMTP_CONFIG_BASE64 w) as [[|c s]|]; cbn [truthy_string];
    try discriminate.
  unfold Config.lift. cbn [logToFile].
  destruct (JSON_parse (base64_decode (String c s))) as [[|keys p l]|e];
    try discriminate.
  intros H. injection H as -> ->.
  cbn [Config.Object_keys Config.prop_smtpServers Config.prop_rateLimit ret].
  cbv zeta. rewrite (invalid_condition (SPArray (first :: rest))).
  cbn [emptyOrMalformed Config.truthy Config.elements].
  destruct (existsb isDefault (first :: rest)); cbn;
    eexists; (split; [reflexivity | same_but_log]).
Qed.

Lemma getSmtpConfigs_fails (w : World) :
  cachedSmtpConfig w = None ->
  usable base64_decode JSON_parse w = false ->
  exists w', Config.getSmtpConfigs base64_decode JSON_parse w
             = (Throw (loadError base64_decode JSON_parse w), w') /\ sameButLog w w'.
Proof.
  intros Hc Hu.
  set (w1 := appendServerLog "Initializing SMTP configuration cache" w).
  assert (S1 : sameButLog w w1) by (subst w1; same_but_log).
  destruct (parse_fails w1) as (w2 & Hp & S2).
  { unfold usable. rewrite (loaded_sameButLog w w1 S1). exact Hu. }
  unfold Config.getSmtpConfigs, try_catch.
  rewrite (bind_Return get_world _ w w w eq_refl). rewrite Hc.
  erewrite bind_Throw.
  2:{ rewrite (bind_Return (logToFile _) _ w w1 tt eq_refl).
      erewrite bind_Throw; [reflexivity|]. exact Hp. }
  cbn. unfold loadError. rewrite (loaded_sameButLog w w1 S1).
  eexists. split; [reflexivity|].
  apply sameButLog_append. eapply sameButLog_trans; eassumption.
Qed.

Lemma getSmtpConfigs_loads (w : World) (first : SmtpServerConfig)
    (rest : list SmtpServerConfig) (limit : option RateLimitConfig) :
  cachedSmtpConfig w = None ->
  loaded base64_decode JSON_parse w = ParsedValue (SPArray (first :: rest)) limit ->
  exists w', Config.getSmtpConfigs base64_decode JSON_parse w
             = (Return (normalized (first :: rest)), w') /\
             cachedSmtpConfig w'
             = Some (mkSmtpConfig (normalized (first :: rest))
                                  (rateLimitOf limit)) /\
             SMTP_CONFIG_BASE64 w' = SMTP_CONFIG_BASE64 w /\
             disk w' = disk w.
Proof.
  intros Hc Hl.
  set (w1 := appendServerLog "Initializing SMTP configuration cache" w).
  assert (S1 : sameButLog w w1) by (subst w1; same_but_log).
  destruct (parse_succeeds w1 first rest limit) as (w2 & Hp & S2).
  { rewrite (loaded_sameButLog w w1 S1). exact Hl. }
  unfold Config.getSmtpConfigs, try_catch.
  rewrite (bind_Return get_world _ w w w eq_refl). rewrite Hc.
  erewrite bind_Return.
  2:{ rewrite (bind_Return (logToFile _) _ w w1 tt eq_refl).
      erewrite bind_Return; [|exact Hp]. cbn. reflexivity. }
  assert (Hne : normalized (first :: rest) <> []).
  { unfold normalized. destruct (existsb isDefault (first :: rest)); discriminate. }
  cbn [smtpServers].
  destruct (normalized (first :: rest)) as [|n0 ns] eqn:En; [congruence|].
  cbn. eexists. split; [reflexivity|].
  destruct S1 as (A1 & B1 & C1), S2 as (A2 & B2 & C2).
  unfold appendServerLog. cbn.
  destruct (serverLogWritable w2); cbn; repeat split; congruence.
Qed.

Lemma getSmtpConfigs_cached (w : World) (c : SmtpConfig) :
  cachedSmtpConfig w = Some c ->
  exists w', Config.getSmtpConfigs base64_decode JSON_parse w
             = (Return (smtpServers c), w') /\ sameButLog w w'.
Proof.
  intros Hc. unfold Config.getSmtpConfigs, try_catch.
  rewrite (bind_Return get_world _ w w w eq_refl). rewrite Hc.
  cbn. destruct (List.length (smtpServers c) =? 0); cbn;
    eexists; (split; [reflexivity | same_but_log]).
Qed.

End Loading.

Section LoadingProperties.

Import RequestHandler.

Variable base64_decode : string -> string.
Variable JSON_parse : string -> Completion Json.
Variable JSON_stringify : SmtpServerConfig -> string.

Lemma defaultCount_none (l : list SmtpServerConfig) :
  existsb isDefault l = false <-> defaultCount l = 0.
Proof.
  unfold defaultCount. induction l as [|s l IH]; cbn; [tauto|].
  destruct (isDefault s); cbn; [split; discriminate | exact IH].
Qed.

Lemma defaultCount_markFirst (first : SmtpServerConfig)
    (rest : list SmtpServerConfig) :
  defaultCount (first :: rest) = 0 ->
  defaultCount (Config.setDefault first :: rest) = 1.
Proof.
  unfold defaultCount. cbn. destruct (isDefault first); cbn; [discriminate|].
  intros ->. reflexivity.
Qed.

(** C3, as the code has it. For every loaded relay set (a non-empty
    array), loading succeeds and at least one config of the result carries
    the default flag. If no config was marked default, the first one in
    load order is promoted, nothing else changes and exactly one config
    carries the flag. If some config was marked, the set is kept as
    loaded, with as many defaults as it came with. *)
Theorem load_ensures_a_default
    (w : World) (first : SmtpServerConfig) (rest : list SmtpServerConfig)
    (limit : option RateLimitConfig) :
  loaded base64_decode JSON_parse w
  = ParsedValue (SPArray (first :: rest)) limit ->
  exists cfg w',
    Config.parseSmtpConfigFromEnv base64_decode JSON_parse w
    = (Return cfg, w') /\
    1 <= defaultCount (smtpServers cfg) /\
    (defaultCount (first :: rest) = 0 ->
     smtpServers cfg = Config.setDefault first :: rest /\
     defaultCount (smtpServers cfg) = 1) /\
    (1 <= defaultCount (first :: rest) ->
     smtpServers cfg = first :: rest).
Proof.
  intros Hl.
  destruct (parse_succeeds base64_decode JSON_parse w first rest limit Hl)
    as (w' & Hp & _).
  eexists; exists w'. split; [exact Hp|].
  cbn [smtpServers]. unfold normalized.
  destruct (existsb isDefault (first :: rest)) eqn:E.
  - assert (Hpos : 1 <= defaultCount (first :: rest)).
    { destruct (defaultCount (first :: rest)) eqn:Ec; [|lia].
      apply defaultCount_none in Ec. congruence. }
    split; [exact Hpos|]. split; [lia | reflexivity].
  - apply defaultCount_none in E. cbn [Config.markFirstDefault].
    rewrite (defaultCount_markFirst first rest E).
    split; [lia|]. split; [auto | lia].
Qed.

(** C4. When nothing is cached and the environment holds no usable relay
    set (no value, a value that does not parse, or a parsed value whose
    [smtpServers] is missing, not an array or an array without entries),
    [getSmtpConfigs] throws the loader's error and caches nothing, and
    [get-smtp-configs] answers with a failure that carries the error's
    message and no list. For a parsed value the error is
    "Config not parsed!". *)
Theorem getSmtpConfigs_fails_without_relays (w : World) :
  cachedSmtpConfig w = None ->
  usable base64_decode JSON_parse w = false ->
  let e := loadError base64_decode JSON_parse w in
  (exists w',
     Config.getSmtpConfigs base64_decode JSON_parse w = (Throw e, w') /\
     cachedSmtpConfig w' = None) /\
  (exists content w',
     handleGetSmtpConfigs base64_decode JSON_parse JSON_stringify w
     = (Return (ConfigsResponse.mk false None (Some (Js.message e)) content),
        w') /\
     cachedSmtpConfig w' = None) /\
  (forall p limit,
     loaded base64_decode JSON_parse w = ParsedValue p limit ->
     emptyOrMalformed p = true /\ e = newError "Config not parsed!").
Proof.
  intros Hc Hu e.
  destruct (getSmtpConfigs_fails base64_decode JSON_parse w Hc Hu)
    as (w' & Hg & (_ & Hcache & _)).
  split; [|split].
  - exists w'. split; [exact Hg | congruence].
  - unfold handleGetSmtpConfigs, try_catch.
    rewrite (bind_Throw _ _ w w' e Hg). cbn.
    eexists; eexists. split; [reflexivity|].
    unfold appendServerLog. cbn.
    repeat match goal with
           | |- context [if ?b then _ else _] => destruct b; cbn
           end; congruence.
  - intros p limit Hl. subst e. unfold usable, loadError in *.
    rewrite Hl in *. split; [|reflexivity].
    apply negb_false_iff. exact Hu.
Qed.

(** The relay list handed out is never empty, from the first call on. *)
Lemma getSmtpConfigs_never_empty (w w' : World)
    (configs : list SmtpServerConfig) :
  (forall c, cachedSmtpConfig w = Some c -> smtpServers c <> []) ->
  Config.getSmtpConfigs base64_decode JSON_parse w = (Return configs, w') ->
  configs <> [] /\
  (forall c, cachedSmtpConfig w' = Some c -> smtpServers c <> []).
Proof.
  intros Hinv Hrun.
  destruct (cachedSmtpConfig w) as [c|] eqn:Hc.
  - destruct (getSmtpConfigs_cached base64_decode JSON_parse w c Hc)
      as (w1 & H1 & (_ & Hcache & _)).
    rewrite H1 in Hrun. injection Hrun as <- <-.
    split; [apply Hinv; reflexivity|].
    intros c' Hc'. rewrite Hcache, Hc in Hc'. injection Hc' as <-.
    apply Hinv. reflexivity.
  - destruct (usable base64_decode JSON_parse w) eqn:Hu.
    + unfold usable in Hu.
      destruct (loaded base64_decode JSON_parse w) as [| | |p limit] eqn:Hl;
        try discriminate Hu.
      destruct p as [| | | | | |[|first rest]]; try discriminate Hu.
      destruct (getSmtpConfigs_loads base64_decode JSON_parse w first rest
                  limit Hc Hl) as (w1 & H1 & Hcache & _).
      rewrite H1 in Hrun. injection Hrun as <- <-.
      assert (Hne : normalized (first :: rest) <> []).
      { unfold normalized.
        destruct (existsb isDefault (first :: rest)); discriminate. }
      split; [exact Hne|].
      intros c' Hc'. rewrite Hcache in Hc'. injection Hc' as <-. exact Hne.
    + destruct (getSmtpConfigs_fails base64_decode JSON_parse w Hc Hu)
        as (w1 & H1 & _).
      rewrite H1 in Hrun. discriminate Hrun.
Qed.

End LoadingProperties.

(** ** Bulk dispatch *)

Section BulkDispatch.

Import RequestHandler.

Variable base64_decode : string -> string.
Variable JSON_parse : string -> Completion Json.
Variable resolveTemplate : string -> option TemplateData -> M (string * string).
Variable transport : SmtpServerConfig -> Message.t -> M unit.
Variable now : World -> string.
Variable summary : nat -> nat -> string.

Local Abbreviation dispatch' := (dispatch transport now).
Local Abbreviation dispatchBatch' := (dispatchBatch transport now).
Local Abbreviation dispatchBatches' := (dispatchBatches transport now).
Local Abbreviation resolve' := (resolve base64_decode JSON_parse resolveTemplate).
Local Abbreviation sendBulkEmails' :=
  (sendBulkEmails base64_decode JSON_parse resolveTemplate transport now summary).

Lemma dispatch_returns (data : BulkEmailData.t) (relay : SmtpServerConfig)
    (content : string * string) (r : EmailRecipient.t) (w : World) :
  exists o w', dispatch' data relay content r w = (Return (r, o), w').
Proof.
  unfold dispatch, try_catch, bind, get_world, ret.
  match goal with
  | |- context [transport ?rl ?m w] =>
      destruct (transport rl m w) as [[[]|e] w1]
  end;
  match goal with
  | |- context [Config.logEmailActivity ?en ?wx] =>
      destruct (logEmailActivity_returns en wx) as (b & w2 & H); rewrite H
  end; eauto.
Qed.

Lemma dispatchBatch_returns (data : BulkEmailData.t) (relay : SmtpServerConfig)
    (content : string * string) (batch : list EmailRecipient.t) :
  forall w, exists os w',
    dispatchBatch' data relay content batch w = (Return os, w') /\
    map fst os = batch.
Proof.
  induction batch as [|r batch IH]; intros w.
  - exists [], w. split; reflexivity.
  - destruct (dispatch_returns data relay content r w) as (o & w1 & H1).
    destruct (IH w1) as (os & w2 & H2 & Hm).
    exists ((r, o) :: os), w2. split; [|cbn; rewrite Hm; reflexivity].
    cbn [dispatchBatch].
    rewrite (bind_Return _ _ w w1 (r, o) H1).
    rewrite (bind_Return _ _ w1 w2 os H2). reflexivity.
Qed.

Lemma dispatchBatches_returns (data : BulkEmailData.t)
    (relay : SmtpServerConfig) (content : string * string)
    (batches : list (list EmailRecipient.t)) :
  forall w, exists os w',
    dispatchBatches' data relay content batches w = (Return os, w') /\
    map fst os = List.concat batches.
Proof.
  induction batches as [|batch batches IH]; intros w.
  - exists [], w. split; reflexivity.
  - destruct (dispatchBatch_returns data relay content batch w)
      as (os & w1 & H1 & Hm1).
    destruct (IH w1) as (os' & w2 & H2 & Hm2).
    exists (os ++ os'), w2. split.
    + cbn [dispatchBatches].
      rewrite (bind_Return _ _ w w1 os H1).
      rewrite (bind_Return _ _ w1 w2 os' H2). reflexivity.
    + rewrite map_app, Hm1, Hm2. reflexivity.
Qed.

Lemma aggregate_counts (outcomes : list (EmailRecipient.t * option string)) :
  let result := aggregate summary outcomes in
  BulkResult.totalSent result + BulkResult.totalFailed result
  = List.length outcomes /\
  (BulkResult.success result = true <-> BulkResult.totalFailed result = 0).
Proof.
  cbn. split; [|apply Nat.eqb_eq].
  induction outcomes as [|[r [reason|]] os IH]; cbn; lia.
Qed.

Lemma resolve_valid (data : BulkEmailData.t) (relayId : option string)
    (w w1 : World) (rs : list EmailRecipient.t) (b : nat)
    (relay : SmtpServerConfig) (content : string * string) :
  resolve' data relayId w = (Return (rs, b, relay, content), w1) ->
  BulkEmailData.recipients data = Some rs /\ 1 <= b.
Proof.
  unfold resolve, validate, bind, ret, throw.
  destruct (BulkEmailData.recipients data) as [rs'|]; [|discriminate].
  set (b' := match BulkEmailData.batchSize data with
             | Some b0 => b0 | None => 10 end).
  destruct (Nat.eqb_spec b' 0) as [|Hb]; [discriminate|].
  cbn [fst snd].
  destruct (lookup base64_decode JSON_parse relayId w) as [[rl|e] w2];
    [|discriminate].
  match goal with
  | |- context [resolveContent ?a ?t ?d ?sb ?bd ?wx] =>
      destruct (resolveContent a t d sb bd wx) as [[ct|err] w3]
  end; [|discriminate].
  intros H. injection H as <- <- _ _ _. split; [reflexivity | lia].
Qed.

Lemma sendBulkEmails_dispatches (data : BulkEmailData.t)
    (relayId : option string) (w w1 : World) (rs : list EmailRecipient.t)
    (b : nat) (relay : SmtpServerConfig) (content : string * string) :
  resolve' data relayId w = (Return (rs, b, relay, content), w1) ->
  exists os w',
    sendBulkEmails' data relayId w = (Return (aggregate summary os), w') /\
    map fst os = rs.
Proof.
  intros Hr. destruct (resolve_valid _ _ _ _ _ _ _ _ Hr) as (_ & Hb).
  destruct (dispatchBatches_returns data relay content
              (partitionBatches b rs) w1) as (os & w2 & Hd & Hm).
  exists os, w2. split.
  - unfold sendBulkEmails, try_catch.
    erewrite bind_Return.
    2:{ rewrite (bind_Return _ _ w w1 _ Hr). reflexivity. }
    cbn iota beta.
    rewrite (bind_Return _ _ w1 w2 os Hd). reflexivity.
  - rewrite Hm. unfold partitionBatches.
    apply batchesFrom_concat; [exact Hb | apply Nat.le_refl].
Qed.

Lemma sendBulkEmails_aborts (data : BulkEmailData.t)
    (relayId : option string) (w w1 : World) (e : Error) :
  resolve' data relayId w = (Throw e, w1) ->
  sendBulkEmails' data relayId w
  = (Return (BulkResult.mk false 0
               (match BulkEmailData.recipients data with
                | Some rs => List.length rs
                | None => 0
                end) [] (Js.message e)), w1).
Proof.
  intros Hr. unfold sendBulkEmails, try_catch.
  erewrite bind_Return.
  2:{ rewrite (bind_Throw _ _ w w1 e Hr). reflexivity. }
  reflexivity.
Qed.

End BulkDispatch.

Section BulkTotals.

Import RequestHandler.

Variable base64_decode : string -> string.
Variable JSON_parse : string -> Completion Json.
Variable resolveTemplate : string -> option TemplateData -> M (string * string).
Variable transport : SmtpServerConfig -> Message.t -> M unit.
Variable now : World -> string.
Variable summary : nat -> nat -> string.

Local Abbreviation resolve' := (resolve base64_decode JSON_parse resolveTemplate).
Local Abbreviation sendBulkEmails' :=
  (sendBulkEmails base64_decode JSON_parse resolveTemplate transport now summary).

(** C2. With the engine of section 4.3 behind the handler: when relay and
    content resolution succeed, [send-bulk-emails] answers with
    [totalSent + totalFailed] equal to the number of recipients and with
    [success] true exactly when [totalFailed] is 0; when resolution fails,
    it answers [success = false], [totalSent = 0] and [totalFailed] equal
    to the number of recipients. Whatever the engine, when it throws the
    handler answers in this last way as well. *)
Theorem handleSendBulkEmails_totals (parameters : SendBulkParams.t) (w : World) :
  let data := requestOf parameters in
  let relayId := SendBulkParams.smtpConfigId parameters in
  let n := recipientCount parameters in
  (forall r w1,
     resolve' data relayId w = (Return r, w1) ->
     exists resp w',
       handleSendBulkEmails sendBulkEmails' parameters w = (Return resp, w') /\
       SendBulkResponse.totalSent resp + SendBulkResponse.totalFailed resp = n /\
       (SendBulkResponse.success resp = true
        <-> SendBulkResponse.totalFailed resp = 0)) /\
  (forall e w1,
     resolve' data relayId w = (Throw e, w1) ->
     exists resp w',
       handleSendBulkEmails sendBulkEmails' parameters w = (Return resp, w') /\
       SendBulkResponse.success resp = false /\
       SendBulkResponse.totalSent resp = 0 /\
       SendBulkResponse.totalFailed resp = n) /\
  (forall engine e w1,
     engine data relayId w = (Throw e, w1) ->
     exists resp w',
       handleSendBulkEmails engine parameters w = (Return resp, w') /\
       SendBulkResponse.success resp = false /\
       SendBulkResponse.totalSent resp = 0 /\
       SendBulkResponse.totalFailed resp = n).
Proof.
  intros data relayId n. split; [|split].
  - intros [[[rs b] relay] content] w1 Hr.
    destruct (sendBulkEmails_dispatches _ _ _ transport now summary
                _ _ _ _ _ _ _ _ Hr) as (os & w2 & Hs & Hm).
    destruct (resolve_valid _ _ _ _ _ _ _ _ _ _ _ Hr) as (Hrec & _).
    destruct (aggregate_counts summary os) as (Hsum & Hiff).
    unfold handleSendBulkEmails, try_catch.
    fold (requestOf parameters). fold data. fold relayId.
    rewrite (bind_Return _ _ w w2 _ Hs).
    eexists; eexists. split; [reflexivity|].
    cbn [SendBulkResponse.totalSent SendBulkResponse.totalFailed
         SendBulkResponse.success].
    split; [|exact Hiff].
    rewrite Hsum. subst n. unfold recipientCount.
    change (SendBulkParams.recipients parameters)
      with (BulkEmailData.recipients data).
    rewrite Hrec, <- Hm. symmetry. apply length_map.
  - intros e w1 Hr.
    pose proof (sendBulkEmails_aborts _ _ _ transport now summary
                  _ _ _ _ _ Hr) as Hs.
    unfold handleSendBulkEmails, try_catch.
    fold (requestOf parameters). fold data. fold relayId.
    rewrite (bind_Return _ _ w w1 _ Hs).
    eexists; eexists. split; [reflexivity|].
    cbn. repeat split.
  - intros engine e w1 He.
    unfold handleSendBulkEmails, try_catch.
    fold (requestOf parameters). fold data. fold relayId.
    rewrite (bind_Throw _ _ w w1 e He).
    eexists; eexists. split; [reflexivity|].
    cbn. repeat split. subst n. unfold recipientCount.
    destruct (SendBulkParams.recipients parameters) as [l|]; [|reflexivity].
    destruct l; reflexivity.
Qed.

End BulkTotals.

(** ** Sending one message *)

(** C10. Whatever [sendEmail] does, a [send-email] request whose [to] is a
    single recipient object is handled as the same request with [to] the
    one-element array of that recipient. The recipient is wrapped into a
    one-element list: [sendEmail] is handed the message with that list, and
    the answer is built from what it returns, or from the error it
    throws. *)
Theorem handleSendEmail_wraps_single_recipient
    (sendEmail : EmailData.t -> option string -> M SendResult.t)
    (parameters : SendEmailParams.t) (r : EmailRecipient.t) (w : World) :
  let single := withTo parameters (ToObject r) in
  let array := withTo parameters (ToArray [r]) in
  let data := emailDataOf parameters [r] in
  let relayId := SendEmailParams.smtpConfigId parameters in
  handleSendEmail sendEmail single = handleSendEmail sendEmail array /\
  EmailData.to data = [r] /\
  (forall result w1,
     sendEmail data relayId w = (Return result, w1) ->
     exists content,
       handleSendEmail sendEmail single w
       = (Return (SendEmailResponse.mk (SendResult.success result)
                                       (SendResult.message result) content),
          w1)) /\
  (forall e w1,
     sendEmail data relayId w = (Throw e, w1) ->
     exists content w2,
       handleSendEmail sendEmail single w
       = (Return (SendEmailResponse.mk false (Some (Js.message e)) content),
          w2)).
Proof.
  intros single array data relayId.
  split; [reflexivity|]. split; [reflexivity|]. split.
  - intros result w1 Hsend.
    unfold handleSendEmail, try_catch.
    change (sendEmail data relayId)
      with (sendEmail (emailDataOf single [r])
                      (SendEmailParams.smtpConfigId single)) in Hsend.
    cbn [withTo SendEmailParams.to single].
    rewrite (bind_Return _ _ w w1 result Hsend).
    eexists. reflexivity.
  - intros e w1 Hsend.
    unfold handleSendEmail, try_catch.
    change (sendEmail data relayId)
      with (sendEmail (emailDataOf single [r])
                      (SendEmailParams.smtpConfigId single)) in Hsend.
    cbn [withTo SendEmailParams.to single].
    rewrite (bind_Throw _ _ w w1 e Hsend).
    eexists; eexists. reflexivity.
Qed.

(** * Further properties *)

Ltac only_log := repeat apply sameButLog_append; apply sameButLog_refl.

(** ** The relay cache *)

Section RelayCache.

Variable base64_decode : string -> string.
Variable JSON_parse : string -> Completion Json.

Lemma normalized_has_default (first : SmtpServerConfig)
    (rest : list SmtpServerConfig) :
  existsb isDefault (normalized (first :: rest)) = true.
Proof.
  unfold normalized.
  destruct (existsb isDefault (first :: rest)) eqn:E; [exact E|].
  reflexivity.
Qed.

Lemma normalized_not_empty (first : SmtpServerConfig)
    (rest : list SmtpServerConfig) :
  normalized (first :: rest) <> [].
Proof.
  unfold normalized.
  destruct (existsb isDefault (first :: rest)); discriminate.
Qed.

(** The ways [getSmtpConfigs] returns: from the cache, or by a first load
    of a relay array with entries. *)
Lemma getSmtpConfigs_Return_inv (w w' : World)
    (configs : list SmtpServerConfig) :
  Config.getSmtpConfigs base64_decode JSON_parse w = (Return configs, w') ->
  exists c,
    cachedSmtpConfig w' = Some c /\ smtpServers c = configs /\
    SMTP_CONFIG_BASE64 w' = SMTP_CONFIG_BASE64 w /\ disk w' = disk w /\
    (cachedSmtpConfig w = Some c \/
     cachedSmtpConfig w = None /\
     exists first rest limit,
       loaded base64_decode JSON_parse w
       = ParsedValue (SPArray (first :: rest)) limit /\
       c = mkSmtpConfig (normalized (first :: rest)) (rateLimitOf limit)).
Proof.
  intros Hrun.
  destruct (cachedSmtpConfig w) as [c|] eqn:Hc.
  - destruct (getSmtpConfigs_cached base64_decode JSON_parse w c Hc)
      as (w1 & H1 & (Henv & Hcache & Hdisk)).
    rewrite H1 in Hrun. injection Hrun as <- <-.
    exists c. split; [congruence|]. split; [reflexivity|].
    split; [exact Henv|]. split; [exact Hdisk|]. left. reflexivity.
  - destruct (usable base64_decode JSON_parse w) eqn:Hu.
    + unfold usable in Hu.
      destruct (loaded base64_decode JSON_parse w) as [| | |p limit] eqn:Hl;
        try discriminate Hu.
      destruct p as [| | | | | |[|first rest]]; try discriminate Hu.
      destruct (getSmtpConfigs_loads base64_decode JSON_parse w first rest
                  limit Hc Hl) as (w1 & H1 & Hcache & Henv & Hdisk).
      rewrite H1 in Hrun. injection Hrun as <- <-.
      eexists. split; [exact Hcache|]. split; [reflexivity|].
      split; [exact Henv|]. split; [exact Hdisk|].
      right. split; [reflexivity|]. exists first, rest, limit.
      split; reflexivity.
    + destruct (getSmtpConfigs_fails base64_decode JSON_parse w Hc Hu)
        as (w1 & H1 & _).
      rewrite H1 in Hrun. discriminate Hrun.
Qed.

(** X1. Once [getSmtpConfigs] has returned a relay list, every later call
    returns that same list without reading the environment again: whatever
    the environment variable holds then and however it would decode, and
    whatever happened to the log files in between, the call answers from
    the cache and changes nothing but the server log. *)
Theorem getSmtpConfigs_loads_once (w w1 : World)
    (configs : list SmtpServerConfig) :
  Config.getSmtpConfigs base64_decode JSON_parse w = (Return configs, w1) ->
  forall (decode' : string -> string) (parse' : string -> Completion Json)
         (w2 : World),
    cachedSmtpConfig w2 = cachedSmtpConfig w1 ->
    exists w3,
      Config.getSmtpConfigs decode' parse' w2 = (Return configs, w3) /\
      sameButLog w2 w3.
Proof.
  intros Hrun decode' parse' w2 Hsame.
  destruct (getSmtpConfigs_Return_inv w w1 configs Hrun)
    as (c & Hc & Hservers & _).
  rewrite Hc in Hsame.
  destruct (getSmtpConfigs_cached decode' parse' w2 c Hsame) as (w3 & H3 & S3).
  exists w3. rewrite <- Hservers. split; assumption.
Qed.

(** X2. [getSmtpConfigs] throws only on a first load that finds no usable
    relay set: nothing was cached, the error is the loader's, and the call
    leaves the cache empty and the environment and the disk as they were,
    so that the next call loads again. *)
Theorem getSmtpConfigs_throws_only_unloaded (w w' : World) (e : Error) :
  Config.getSmtpConfigs base64_decode JSON_parse w = (Throw e, w') ->
  cachedSmtpConfig w = None /\
  usable base64_decode JSON_parse w = false /\
  e = loadError base64_decode JSON_parse w /\
  cachedSmtpConfig w' = None /\
  SMTP_CONFIG_BASE64 w' = SMTP_CONFIG_BASE64 w /\
  disk w' = disk w.
Proof.
  intros Hrun.
  destruct (cachedSmtpConfig w) as [c|] eqn:Hc.
  - destruct (getSmtpConfigs_cached base64_decode JSON_parse w c Hc)
      as (w1 & H1 & _).
    rewrite H1 in Hrun. discriminate Hrun.
  - destruct (usable base64_decode JSON_parse w) eqn:Hu.
    + unfold usable in Hu.
      destruct (loaded base64_decode JSON_parse w) as [| | |p limit] eqn:Hl;
        try discriminate Hu.
      destruct p as [| | | | | |[|first rest]]; try discriminate Hu.
      destruct (getSmtpConfigs_loads base64_decode JSON_parse w first rest
                  limit Hc Hl) as (w1 & H1 & _).
      rewrite H1 in Hrun. discriminate Hrun.
    + destruct (getSmtpConfigs_fails base64_decode JSON_parse w Hc Hu)
        as (w1 & H1 & (Henv & Hcache & Hdisk)).
      rewrite H1 in Hrun. injection Hrun as <- <-.
      repeat split; try assumption; try reflexivity. congruence.
Qed.

(** X3. Starting from a cache that is empty or sound, every relay list
    [getSmtpConfigs] hands out is not empty and holds a relay marked
    default, it is the list held in the cache afterwards, and the cache
    stays sound: a caller looking for the default relay always finds
    one. *)
Theorem getSmtpConfigs_hands_out_default (w w' : World)
    (configs : list SmtpServerConfig) :
  cacheSound w ->
  Config.getSmtpConfigs base64_decode JSON_parse w = (Return configs, w') ->
  configs <> [] /\
  existsb isDefault configs = true /\
  (exists s, find isDefault configs = Some s /\ isDefault s = true) /\
  cacheSound w'.
Proof.
  intros Hsound Hrun.
  destruct (getSmtpConfigs_Return_inv w w' configs Hrun)
    as (c & Hc & Hservers & _ & _ & Hfrom).
  assert (Hok : configs <> [] /\ existsb isDefault configs = true).
  { rewrite <- Hservers.
    destruct Hfrom as [Hcached | (_ & first & rest & limit & _ & ->)].
    - apply Hsound. exact Hcached.
    - cbn [smtpServers]. split;
        [apply normalized_not_empty | apply normalized_has_default]. }
  destruct Hok as (Hne & Hdef).
  split; [exact Hne|]. split; [exact Hdef|]. split.
  - destruct (find isDefault configs) as [s|] eqn:Hfind.
    + exists s. split; [reflexivity|]. apply (find_some _ _ Hfind).
    + apply existsb_exists in Hdef. destruct Hdef as (s & Hin & Hs).
      pose proof (find_none _ _ Hfind s Hin) as Hcontra. congruence.
  - intros c' Hc'. rewrite Hc in Hc'. injection Hc' as <-.
    rewrite Hservers. split; assumption.
Qed.

End RelayCache.

(** ** The audit log file *)

Lemma sameButFiles_refl (w : World) : sameButFiles w w.
Proof. repeat split. Qed.

Lemma sameButFiles_trans (w1 w2 w3 : World) :
  sameButFiles w1 w2 -> sameButFiles w2 w3 -> sameButFiles w1 w3.
Proof.
  unfold sameButFiles. intros (A1 & B1 & C1 & D1) (A2 & B2 & C2 & D2).
  repeat split; congruence.
Qed.

(** A successful append found a readable log and sound storage, and wrote
    the old entries followed by the new one. *)
Lemma logEmailActivity_true_inv (e : EmailLogEntry) (w w' : World) :
  Config.logEmailActivity e w = (Return true, w') ->
  exists L,
    storedLog w = Some L /\ storageOk w = true /\
    logFile (disk w') = Some (Parsed (LogEntries (L ++ [e]))) /\
    sameButFiles w w' /\ serverLog w' = serverLog w.
Proof.
  destruct w as [env cache [ed lf wo] lw sl].
  unfold storageOk, storedLog, sameButFiles. cbn.
  destruct ed as [err|]; [run_js; intros H; inversion H|].
  destruct lf as [[err|[|l]]|], wo as [|err' rem];
    run_js; intros H; inversion H; subst; cbn;
    eexists; repeat split.
Qed.

Lemma logEmailActivity_healthy (e : EmailLogEntry) (w : World)
    (L : list EmailLogEntry) :
  storageOk w = true ->
  storedLog w = Some L ->
  exists w',
    Config.logEmailActivity e w = (Return true, w') /\
    storedLog w' = Some (L ++ [e]) /\ storageOk w' = true /\
    sameButFiles w w' /\ serverLog w' = serverLog w.
Proof.
  destruct w as [env cache [ed lf wo] lw sl].
  unfold storageOk, storedLog, sameButFiles. cbn.
  destruct ed as [err|]; [discriminate|].
  destruct lf as [[err|[|l]]|], wo as [|err' rem]; try discriminate;
    intros _ HL; injection HL as <-; run_js;
    eexists; repeat split.
Qed.

Lemma getEmailLogs_stored (w : World) (L : list EmailLogEntry) :
  storedLog w = Some L ->
  Config.getEmailLogs w = (Return (LogEntries L), w).
Proof.
  destruct w as [env cache [ed lf wo] lw sl]. unfold storedLog. cbn.
  destruct lf as [[err|[|l]]|]; intros HL; try discriminate HL;
    injection HL as <-; reflexivity.
Qed.

(** X4. [getEmailLogs] never throws and never writes: it returns what the
    log file holds, the empty list when there is no file, and also the
    empty list, after one line in the server log, when the file cannot be
    read or parsed, so that a damaged log reads as an empty one. *)
Theorem getEmailLogs_never_throws (w : World) :
  exists logs w',
    Config.getEmailLogs w = (Return logs, w') /\
    sameButLog w w' /\
    (forall L, storedLog w = Some L -> logs = LogEntries L /\ w' = w) /\
    (forall err,
       logFile (disk w) = Some (ReadFails err) ->
       logs = LogEntries [] /\
       w' = appendServerLog
              (cat ["Error reading email logs: "; Js.message err]) w).
Proof.
  destruct w as [env cache [ed lf wo] lw sl]. unfold storedLog. cbn.
  destruct lf as [[err|[|l]]|]; run_js;
    eexists; eexists; (split; [reflexivity|]);
    (split; [only_log|]);
    split; intros x Hx; try discriminate Hx;
    injection Hx as <-; split; reflexivity.
Qed.

(** X5. An append that fails leaves the log file as it was, unless the
    failure is that of the write itself, in which case the file is what
    the failed write left; it changes neither the environment nor the
    relay cache, and it reports the failure in one line of the server
    log. *)
Theorem logEmailActivity_failure_keeps_file
    (e : EmailLogEntry) (w w' : World) :
  Config.logEmailActivity e w = (Return false, w') ->
  sameButFiles w w' /\
  (logFile (disk w') = logFile (disk w) \/
   exists err remains,
     writeJson_outcome (disk w) = WriteFails err remains /\
     logFile (disk w') = remains) /\
  (writeJson_outcome (disk w) = WriteOk -> disk w' = disk w) /\
  exists reason,
    serverLog w'
    = if serverLogWritable w
      then serverLog w ++ [cat ["Error logging email activity: "; reason]]
      else serverLog w.
Proof.
  destruct w as [env cache [ed lf wo] lw sl]. unfold sameButFiles. cbn.
  destruct ed as [err|].
  { run_js. intros H. inversion H; subst. unfold appendServerLog.
    destruct lw; cbn; (split; [repeat split|]);
      (split; [left; reflexivity|]); (split; [intros _; reflexivity|]);
      first [exists EmptyString; reflexivity | eexists; reflexivity]. }
  destruct lf as [[err|[|l]]|], wo as [|err' rem];
    run_js; intros H; inversion H; subst; unfold appendServerLog;
    destruct lw; cbn; (split; [repeat split|]);
    (split; [first [left; reflexivity
                   | right; eexists; eexists; split; reflexivity]|]);
    (split; [intros Hw; first [reflexivity | discriminate Hw]|]);
    first [exists EmptyString; reflexivity | eexists; reflexivity].
Qed.

Lemma logEmailActivity_unreadable (e : EmailLogEntry) (w : World) :
  storedLog w = None ->
  exists w',
    Config.logEmailActivity e w = (Return false, w') /\
    disk w' = disk w /\ sameButLog w w'.
Proof.
  destruct w as [env cache [ed lf wo] lw sl]. unfold storedLog. cbn.
  destruct ed as [err0|], lf as [[err|[|l]]|]; try discriminate;
    intros _; run_js; eexists;
    (split; [reflexivity|]); (split; [|only_log]);
    unfold appendServerLog; destruct lw; reflexivity.
Qed.

(** X6. A log file that cannot be read as an array of entries is never
    overwritten: each of any number of appends returns [false] and leaves
    the disk as it was, so the file keeps its content and logging stays
    off until the file is repaired or removed. *)
Theorem appendAll_unreadable_log (entries : list EmailLogEntry) :
  forall w,
    storedLog w = None ->
    exists w',
      appendAll entries w = (Return (map (fun _ => false) entries), w') /\
      disk w' = disk w /\ storedLog w' = None.
Proof.
  induction entries as [|e rest IH]; intros w Hnone.
  - exists w. repeat split. exact Hnone.
  - destruct (logEmailActivity_unreadable e w Hnone) as (w1 & H1 & Hd1 & _).
    assert (Hnone1 : storedLog w1 = None)
      by (unfold storedLog in *; rewrite Hd1; exact Hnone).
    destruct (IH w1 Hnone1) as (w2 & H2 & Hd2 & Hnone2).
    exists w2. split; [|split; [congruence | exact Hnone2]].
    cbn [appendAll map].
    rewrite (bind_Return _ _ w w1 false H1).
    rewrite (bind_Return _ _ w1 w2 _ H2). reflexivity.
Qed.

(** X7. On sound storage, appends compose: appending the entries of a list
    one after the other succeeds each time, the log then holds the old
    entries followed by the new ones in the order of the calls,
    [getEmailLogs] reads that sequence back, and the storage is still
    sound. *)
Theorem appendAll_extends_log (entries : list EmailLogEntry) :
  forall (w : World) (L : list EmailLogEntry),
    storageOk w = true ->
    storedLog w = Some L ->
    exists w',
      appendAll entries w = (Return (map (fun _ => true) entries), w') /\
      storedLog w' = Some (L ++ entries) /\
      Config.getEmailLogs w' = (Return (LogEntries (L ++ entries)), w') /\
      storageOk w' = true /\ sameButFiles w w'.
Proof.
  induction entries as [|e rest IH]; intros w L Hok HL.
  - exists w. rewrite app_nil_r. split; [reflexivity|]. split; [exact HL|].
    split; [|split; [exact Hok | apply sameButFiles_refl]].
    apply getEmailLogs_stored. exact HL.
  - destruct (logEmailActivity_healthy e w L Hok HL)
      as (w1 & H1 & HL1 & Hok1 & S1 & _).
    destruct (IH w1 (L ++ [e]) Hok1 HL1) as (w2 & H2 & HL2 & Hg2 & Hok2 & S2).
    exists w2. rewrite <- app_assoc in HL2, Hg2. cbn [app] in HL2, Hg2.
    split; [|split; [exact HL2|split; [exact Hg2|split; [exact Hok2|]]]].
    + cbn [appendAll map].
      rewrite (bind_Return _ _ w w1 true H1).
      rewrite (bind_Return _ _ w1 w2 _ H2). reflexivity.
    + eapply sameButFiles_trans; eassumption.
Qed.

(** ** The append, one await at a time *)

Lemma run_await {A B} (op : M B) (k : Completion B -> M (Async.t A))
    (w : World) :
  Async.run (Async.await op k) w
  = match op w with
    | (c, w1) =>
        match k c w1 with
        | (Return rest, w2) => Async.run rest w2
        | (Throw e, w2) => (Throw e, w2)
        end
    end.
Proof.
  unfold Async.await. cbn [Async.run].
  destruct (op w) as [c w1]. destruct (k c w1) as [[rest|e] w2]; reflexivity.
Qed.

Lemma runAmong_await {A B} (others : nat -> World -> World) (n : nat)
    (op : M B) (k : Completion B -> M (Async.t A)) (w : World) :
  Async.runAmong others n (Async.await op k) w
  = match op (others n w) with
    | (c, w1) =>
        match k c w1 with
        | (Return rest, w2) => Async.runAmong others (S n) rest w2
        | (Throw e, w2) => (Throw e, w2)
        end
    end.
Proof.
  unfold Async.await. cbn [Async.runAmong].
  destruct (op (others n w)) as [c w1].
  destruct (k c w1) as [[rest|e] w2]; reflexivity.
Qed.

Lemma appendServerLog_keeps_disk (line : string) (w : World) :
  disk (appendServerLog line w) = disk w.
Proof. unfold appendServerLog. destruct (serverLogWritable w); reflexivity. Qed.

(** The storage operations read and write the disk only. *)
Lemma fs_ensureDir_eq (w : World) :
  Config.fs_ensureDir w
  = (match ensureDir_error (disk w) with
     | Some e => Throw e
     | None => Return tt
     end, w).
Proof.
  unfold Config.fs_ensureDir, bind, get_world.
  destruct (ensureDir_error (disk w)); reflexivity.
Qed.

Lemma fs_pathExists_eq (w : World) :
  Config.fs_pathExists w
  = (Return (match logFile (disk w) with Some _ => true | None => false end),
     w).
Proof. reflexivity. Qed.

Lemma fs_readJson_eq (w : World) :
  Config.fs_readJson w
  = (match logFile (disk w) with
     | Some (Parsed v) => Return v
     | Some (ReadFails e) => Throw e
     | None => Throw (newError "ENOENT: no such file or directory")
     end, w).
Proof.
  unfold Config.fs_readJson, bind, get_world.
  destruct (logFile (disk w)) as [[e|v]|]; reflexivity.
Qed.

(** Awaited alone, the task is the call. *)
Lemma logEmailActivity_runs_task (e : EmailLogEntry) (w : World) :
  Async.run (Config.logEmailActivityTask e) w = Config.logEmailActivity e w.
Proof.
  destruct w as [env cache [ed lf wo] lw sl].
  unfold Config.logEmailActivityTask. rewrite !run_await.
  destruct ed as [err|]; [run_js; reflexivity|].
  destruct lf as [[err|[|l]]|], wo as [|err' rem]; run_js;
    rewrite ?run_await; run_js; rewrite ?run_await; run_js; reflexivity.
Qed.

(** A task that settles with [true] while the rest of the program leaves
    the disk alone: it read a log that holds entries, and it wrote those
    entries followed by its own. *)
Lemma logEmailActivityTask_true_inv (others : nat -> World -> World)
    (e : EmailLogEntry) (w w' : World) :
  (forall n x, disk (others n x) = disk x) ->
  Async.runAmong others 0 (Config.logEmailActivityTask e) w
  = (Return true, w') ->
  exists L,
    storedLog w = Some L /\
    logFile (disk w') = Some (Parsed (LogEntries (L ++ [e]))).
Proof.
  intros Hd. unfold Config.logEmailActivityTask, storedLog.
  rewrite runAmong_await, fs_ensureDir_eq, Hd.
  destruct (ensureDir_error (disk w)) as [err|];
    [cbn; intros H; inversion H|].
  cbn [ret]. rewrite runAmong_await, fs_pathExists_eq, !Hd.
  destruct (logFile (disk w)) as [[err|[|l]]|] eqn:Hfile.
  - cbn [ret]. rewrite runAmong_await, fs_readJson_eq, !Hd, Hfile.
    cbn. intros H; inversion H.
  - cbn [ret]. rewrite runAmong_await, fs_readJson_eq, !Hd, Hfile.
    cbn. intros H; inversion H.
  - cbn [ret]. rewrite runAmong_await, fs_readJson_eq, !Hd, Hfile.
    unfold try_catch, bind, Config.push, ret.
    rewrite runAmong_await.
    unfold Config.fs_writeJson, bind, get_world.
    destruct (writeJson_outcome (disk (others 3 (others 2 (others 1 (others 0 w))))))
      as [|err' rem] eqn:Hwo.
    + cbn. intros H. inversion H; subst. cbn.
      exists l. split; reflexivity.
    + cbn. intros H. inversion H.
  - unfold try_catch, bind, Config.push, ret.
    rewrite runAmong_await.
    unfold Config.fs_writeJson, bind, get_world.
    destruct (writeJson_outcome (disk (others 2 (others 1 (others 0 w)))))
      as [|err' rem] eqn:Hwo.
    + cbn. intros H. inversion H; subst. cbn.
      exists []. split; reflexivity.
    + cbn. intros H. inversion H.
Qed.

(** C8, as the code has it. When the log holds the sequence [L] and an
    append of [e] succeeds while nothing else changes the disk between its
    steps (no other append overlaps it), the log holds [L ++ [e]]
    afterwards, and reading it back yields that sequence: one entry more,
    [e] last, every earlier entry at its position. *)
Theorem logEmailActivity_undisturbed_appends_at_end
    (others : nat -> World -> World)
    (L : list EmailLogEntry) (e : EmailLogEntry) (w w' : World) :
  (forall n x, disk (others n x) = disk x) ->
  storedLog w = Some L ->
  Async.runAmong others 0 (Config.logEmailActivityTask e) w
  = (Return true, w') ->
  logFile (disk w') = Some (Parsed (LogEntries (L ++ [e]))) /\
  storedLog w' = Some (L ++ [e]) /\
  Config.getEmailLogs w' = (Return (LogEntries (L ++ [e])), w') /\
  List.length (L ++ [e]) = S (List.length L) /\
  nth_error (L ++ [e]) (List.length L) = Some e /\
  (forall i, i < List.length L -> nth_error (L ++ [e]) i = nth_error L i).
Proof.
  intros Hd HL Hrun.
  destruct (logEmailActivityTask_true_inv others e w w' Hd Hrun)
    as (L0 & HL0 & Hfile).
  rewrite HL in HL0. injection HL0 as <-.
  assert (HL' : storedLog w' = Some (L ++ [e]))
    by (unfold storedLog; rewrite Hfile; reflexivity).
  split; [exact Hfile|]. split; [exact HL'|].
  split; [apply getEmailLogs_stored; exact HL'|].
  split; [rewrite length_app; cbn; lia|].
  split.
  - rewrite nth_error_app2 by lia. rewrite Nat.sub_diag. reflexivity.
  - intros i Hi. apply nth_error_app1. exact Hi.
Qed.

(** ** Appending and reading *)

Section SortedLists.

Context {A : Type}.
Variable key : A -> Z.

Lemma sorted_head_max (h : A) (t : list A) :
  StronglySorted (descending key) (h :: t) ->
  forall x, In x (h :: t) -> (key x <= key h)%Z.
Proof.
  intros Hs x [<-|Hx]; [lia|].
  apply StronglySorted_inv in Hs. destruct Hs as (_ & Hall).
  rewrite Forall_forall in Hall. exact (Hall x Hx).
Qed.

Lemma NoDup_map_eq (l : list A) (x y : A) :
  NoDup (map key l) -> In x l -> In y l -> key x = key y -> x = y.
Proof.
  induction l as [|a l IH]; intros Hnd Hx Hy Hk; [contradiction|].
  cbn [map] in Hnd. apply NoDup_cons_iff in Hnd. destruct Hnd as (Hnot & Hnd).
  destruct Hx as [<-|Hx], Hy as [<-|Hy].
  - reflexivity.
  - exfalso. apply Hnot. rewrite Hk. apply in_map. exact Hy.
  - exfalso. apply Hnot. rewrite <- Hk. apply in_map. exact Hx.
  - apply IH; assumption.
Qed.

(** A list has one arrangement by decreasing key when the keys differ. *)
Lemma sorted_perm_unique (l1 : list A) :
  forall l2,
    StronglySorted (descending key) l1 ->
    StronglySorted (descending key) l2 ->
    Permutation l1 l2 ->
    NoDup (map key l1) ->
    l1 = l2.
Proof.
  induction l1 as [|a t1 IH]; intros l2 H1 H2 Hp Hnd.
  - symmetry. apply Permutation_nil. exact Hp.
  - destruct l2 as [|b t2].
    { apply Permutation_sym, Permutation_nil in Hp. discriminate Hp. }
    assert (Hab : a = b).
    { assert (Hb : In b (a :: t1))
        by (eapply Permutation_in; [symmetry; exact Hp | left; reflexivity]).
      assert (Ha : In a (b :: t2))
        by (eapply Permutation_in; [exact Hp | left; reflexivity]).
      pose proof (sorted_head_max a t1 H1 b Hb).
      pose proof (sorted_head_max b t2 H2 a Ha).
      apply (NoDup_map_eq (a :: t1)); [exact Hnd | left; reflexivity | exact Hb | lia]. }
    subst b. f_equal.
    apply IH.
    + apply StronglySorted_inv in H1. tauto.
    + apply StronglySorted_inv in H2. tauto.
    + eapply Permutation_cons_inv. exact Hp.
    + cbn [map] in Hnd. apply NoDup_cons_iff in Hnd. tauto.
Qed.

Lemma Permutation_filter_compat (p : A -> bool) (l l' : list A) :
  Permutation l l' -> Permutation (filter p l) (filter p l').
Proof.
  induction 1 as [|x l l' _ IH|x y l|l l' l'' _ IH1 _ IH2]; cbn.
  - constructor.
  - destruct (p x); [constructor|]; exact IH.
  - destruct (p x), (p y); try reflexivity. apply perm_swap.
  - etransitivity; eassumption.
Qed.

End SortedLists.

Section AppendAndRead.

Variable Date_getTime : string -> JsArray.Number.

(** The text of a successful answer (requestHandler.ts:85-91). *)
Lemma handleGetEmailLogs_answer (limit : option Z) (f : option bool)
    (w : World) (L : list EmailLogEntry) :
  storedLog w = Some L ->
  let result :=
    limited limit (JsArray.sort (newestFirst Date_getTime) (matching f L)) in
  handleGetEmailLogs Date_getTime limit f w
  = (Return (LogsResponse.mk true (Some result) None
               (textContent
                  (cat ["📋 Retrieved "; string_of_nat (List.length result);
                        " email log";
                        if negb (List.length result =? 1) then "s" else "";
                        match f with
                        | Some b => cat [" (filtered by success=";
                                         string_of_bool b; ")"]
                        | None => ""
                        end]))), w).
Proof.
  intros HL. destruct w as [env cache [ed lf wo] lw sl].
  unfold storedLog in HL. cbn in HL.
  assert (Hget : Config.getEmailLogs
                   (mkWorld env cache (mkDisk ed lf wo) lw sl)
                 = (Return (LogEntries L),
                    mkWorld env cache (mkDisk ed lf wo) lw sl)).
  { destruct lf as [[e|[|l]]|]; try discriminate HL;
      injection HL as <-; reflexivity. }
  unfold handleGetEmailLogs, try_catch, bind. rewrite Hget.
  unfold limited, matching, JsArray.slice0.
  destruct f as [b|], limit as [n|]; cbn [asArray ret];
    try (destruct (Z.eqb_spec n 0) as [->|Hn]; cbn [negb andb];
         [|destruct (0 <? n)%Z]);
    reflexivity.
Qed.

Lemma matching_app (f : option bool) (L1 L2 : list EmailLogEntry) :
  matching f (L1 ++ L2) = matching f L1 ++ matching f L2.
Proof. destruct f; [apply filter_app | reflexivity]. Qed.

Lemma matching_one (f : option bool) (e : EmailLogEntry) :
  f = None \/ f = Some (success e) -> matching f [e] = [e].
Proof.
  intros [->| ->]; [reflexivity|]. cbn. rewrite Bool.eqb_reflx. reflexivity.
Qed.

(** X8. Append, then read. When the log holds a sequence of entries and an
    append succeeds while nothing else changes the disk between its steps
    (no other append overlaps it), the entry is among the entries that
    [get-email-logs] returns on the log as the append left it, whenever
    the request has no filter or filters on the entry's own success flag,
    and has no limit or a limit that is not positive. *)
Theorem appended_entry_is_returned
    (others : nat -> World -> World) (L : list EmailLogEntry)
    (e : EmailLogEntry) (w w' : World) (limit : option Z) (f : option bool) :
  (forall n x, disk (others n x) = disk x) ->
  storedLog w = Some L ->
  Async.runAmong others 0 (Config.logEmailActivityTask e) w
  = (Return true, w') ->
  f = None \/ f = Some (success e) ->
  (forall n, limit = Some n -> (n <= 0)%Z) ->
  exists result content,
    handleGetEmailLogs Date_getTime limit f w'
    = (Return (LogsResponse.mk true (Some result) None content), w') /\
    In e result.
Proof.
  intros Hd HL Happend Hf Hlimit.
  destruct (logEmailActivityTask_true_inv others e w w' Hd Happend)
    as (L0 & HL0 & Hfile).
  rewrite HL in HL0. injection HL0 as <-.
  assert (HL' : storedLog w' = Some (L ++ [e]))
    by (unfold storedLog; rewrite Hfile; reflexivity).
  pose proof (handleGetEmailLogs_answer limit f w' (L ++ [e]) HL') as Hrun.
  cbv zeta in Hrun.
  eexists; eexists. split; [exact Hrun|].
  assert (Hlim : forall l, limited limit l = l).
  { intros l. unfold limited. destruct limit as [n|]; [|reflexivity].
    specialize (Hlimit n eq_refl).
    destruct (Z.ltb_spec 0 n); [lia | reflexivity]. }
  rewrite Hlim.
  eapply Permutation_in; [symmetry; apply sort_perm|].
  rewrite matching_app, (matching_one f e Hf).
  apply in_or_app. right. left. reflexivity.
Qed.

(** X9. The entry just logged comes first. When the log holds a sequence
    of entries and an append succeeds while nothing else changes the disk
    between its steps (no other append overlaps it), and the request has
    no filter or filters on the entry's own success flag, and the entry's
    timestamp is a date later than the dates of all the stored entries the
    request selects, then [get-email-logs] with limit 1 on the log as the
    append left it returns exactly that entry. *)
Theorem newest_entry_is_first
    (others : nat -> World -> World)
    (e : EmailLogEntry) (w w' : World) (L : list EmailLogEntry)
    (f : option bool) :
  (forall n x, disk (others n x) = disk x) ->
  storedLog w = Some L ->
  Async.runAmong others 0 (Config.logEmailActivityTask e) w
  = (Return true, w') ->
  f = None \/ f = Some (success e) ->
  validTimestamp Date_getTime e = true ->
  (forall x, In x (matching f L) ->
             validTimestamp Date_getTime x = true /\
             (timeOf Date_getTime x < timeOf Date_getTime e)%Z) ->
  exists content,
    handleGetEmailLogs Date_getTime (Some 1%Z) f w'
    = (Return (LogsResponse.mk true (Some [e]) None content), w').
Proof.
  intros Hd HL Happend Hf Hve Hold.
  destruct (logEmailActivityTask_true_inv others e w w' Hd Happend)
    as (L0 & HL0 & Hfile).
  rewrite HL in HL0. injection HL0 as <-.
  assert (HL' : storedLog w' = Some (L ++ [e]))
    by (unfold storedLog; rewrite Hfile; reflexivity).
  pose proof (handleGetEmailLogs_answer (Some 1%Z) f w' (L ++ [e]) HL')
    as Hrun.
  cbv zeta in Hrun.
  assert (Hone : limited (Some 1%Z)
                   (JsArray.sort (newestFirst Date_getTime)
                                 (matching f (L ++ [e]))) = [e]).
  { unfold limited. cbn [Z.ltb Z.compare Z.to_nat Pos.to_nat
                          Pos.iter_op Nat.add].
    rewrite matching_app, (matching_one f e Hf).
    set (M := matching f L ++ [e]).
    assert (Hvalid : Forall (fun x => validTimestamp Date_getTime x = true) M).
    { apply Forall_app. split; [|constructor; [exact Hve | constructor]].
      apply Forall_forall. intros x Hx. apply (Hold x Hx). }
    pose proof (sort_sorted (newestFirst Date_getTime) (timeOf Date_getTime)
                  (fun x => validTimestamp Date_getTime x = true)
                  (newestFirst_timeOf Date_getTime) M Hvalid) as Hsorted.
    pose proof (sort_perm (newestFirst Date_getTime) M) as Hperm.
    destruct (JsArray.sort (newestFirst Date_getTime) M) as [|h t] eqn:Es.
    { apply Permutation_nil in Hperm. subst M.
      destruct (matching f L); discriminate Hperm. }
    cbn [firstn].
    assert (Hh : h = e).
    { assert (Hin : In h M)
        by (eapply Permutation_in; [exact Hperm | left; reflexivity]).
      subst M. apply in_app_or in Hin. destruct Hin as [Hin|[Hin|[]]].
      - exfalso. destruct (Hold h Hin) as (_ & Hlt).
        assert (He : In e (h :: t)).
        { eapply Permutation_in; [symmetry; exact Hperm|].
          apply in_or_app. right. left. reflexivity. }
        pose proof (sorted_head_max (timeOf Date_getTime) h t Hsorted e He).
        lia.
      - symmetry. exact Hin. }
    subst h. reflexivity. }
  rewrite Hone in Hrun. eexists. exact Hrun.
Qed.

Lemma filter_flags_partition (L : list EmailLogEntry) :
  Permutation
    (matching (Some true) L ++ matching (Some false) L) L.
Proof.
  unfold matching. induction L as [|a L IH]; [reflexivity|].
  cbn [filter]. destruct (success a); cbn [Bool.eqb app].
  - constructor. exact IH.
  - etransitivity; [symmetry; apply Permutation_middle|].
    constructor. exact IH.
Qed.

(** X10. The two filters split the log: without a limit, the entries
    [get-email-logs] returns for [filterBySuccess = true] together with
    those it returns for [filterBySuccess = false] are the stored entries,
    each exactly once. *)
Theorem filters_partition_log (w : World) (L : list EmailLogEntry) :
  storedLog w = Some L ->
  exists sent failed contentSent contentFailed,
    handleGetEmailLogs Date_getTime None (Some true) w
    = (Return (LogsResponse.mk true (Some sent) None contentSent), w) /\
    handleGetEmailLogs Date_getTime None (Some false) w
    = (Return (LogsResponse.mk true (Some failed) None contentFailed), w) /\
    Permutation (sent ++ failed) L /\
    List.length sent + List.length failed = List.length L.
Proof.
  intros HL.
  pose proof (handleGetEmailLogs_answer None (Some true) w L HL) as Ht.
  pose proof (handleGetEmailLogs_answer None (Some false) w L HL) as Hf.
  cbv zeta in Ht, Hf.
  eexists; eexists; eexists; eexists.
  split; [exact Ht|]. split; [exact Hf|].
  assert (Hp : Permutation
                 (limited None (JsArray.sort (newestFirst Date_getTime)
                                             (matching (Some true) L))
                  ++ limited None (JsArray.sort (newestFirst Date_getTime)
                                                (matching (Some false) L)))
                 L).
  { cbn [limited]. etransitivity; [|apply filter_flags_partition].
    apply Permutation_app; apply sort_perm. }
  split; [exact Hp|].
  rewrite <- length_app. apply Permutation_length. exact Hp.
Qed.

(** X11. The order of the answer does not depend on the order of the file:
    two logs that hold the same entries in different orders get the same
    answer from [get-email-logs], for every limit and filter, when the
    timestamps of the selected entries are dates and no two of them are
    equal. *)
Theorem stored_order_is_irrelevant
    (w1 w2 : World) (L1 L2 : list EmailLogEntry)
    (limit : option Z) (f : option bool) :
  storedLog w1 = Some L1 ->
  storedLog w2 = Some L2 ->
  Permutation L1 L2 ->
  forallb (validTimestamp Date_getTime) (matching f L1) = true ->
  NoDup (map (timeOf Date_getTime) (matching f L1)) ->
  exists response,
    handleGetEmailLogs Date_getTime limit f w1 = (Return response, w1) /\
    handleGetEmailLogs Date_getTime limit f w2 = (Return response, w2).
Proof.
  intros H1 H2 Hp Hvalid Hnd.
  pose proof (handleGetEmailLogs_answer limit f w1 L1 H1) as R1.
  pose proof (handleGetEmailLogs_answer limit f w2 L2 H2) as R2.
  cbv zeta in R1, R2.
  assert (Hm : Permutation (matching f L1) (matching f L2)).
  { unfold matching. destruct f; [|exact Hp].
    apply Permutation_filter_compat. exact Hp. }
  assert (Hv1 : Forall (fun x => validTimestamp Date_getTime x = true)
                       (matching f L1)).
  { apply Forall_forall. intros x Hx.
    rewrite forallb_forall in Hvalid. exact (Hvalid x Hx). }
  assert (Hv2 : Forall (fun x => validTimestamp Date_getTime x = true)
                       (matching f L2))
    by (eapply Permutation_Forall; eassumption).
  assert (Heq : JsArray.sort (newestFirst Date_getTime) (matching f L1)
                = JsArray.sort (newestFirst Date_getTime) (matching f L2)).
  { apply (sorted_perm_unique (timeOf Date_getTime)).
    - exact (sort_sorted (newestFirst Date_getTime) (timeOf Date_getTime) _
               (newestFirst_timeOf Date_getTime) _ Hv1).
    - exact (sort_sorted (newestFirst Date_getTime) (timeOf Date_getTime) _
               (newestFirst_timeOf Date_getTime) _ Hv2).
    - etransitivity; [apply sort_perm|].
      etransitivity; [exact Hm|]. symmetry. apply sort_perm.
    - eapply Permutation_NoDup; [|exact Hnd].
      apply Permutation_map. symmetry. apply sort_perm. }
  rewrite <- Heq in R2.
  eexists. split; [exact R1 | exact R2].
Qed.

End AppendAndRead.

(** ** The handlers answer, whatever happens *)

Section HandlersAnswer.

Variable Date_getTime : string -> JsArray.Number.
Variable sendEmail : EmailData.t -> option string -> M SendResult.t.
Variable sendBulkEmails : BulkEmailData.t -> option string -> M BulkResult.t.
Variable base64_decode : string -> string.
Variable JSON_parse : string -> Completion Json.
Variable JSON_stringify : SmtpServerConfig -> string.

(** The recipient list of a [send-email] request (requestHandler.ts:124). *)
Local Abbreviation recipientsOf parameters :=
  (match SendEmailParams.to parameters with
   | ToArray l => l
   | ToObject r => [r]
   end).

Lemma handleSendEmail_returns (parameters : SendEmailParams.t) (w : World) :
  exists resp w',
    handleSendEmail sendEmail parameters w = (Return resp, w').
Proof.
  unfold handleSendEmail, try_catch, bind.
  match goal with
  | |- context [sendEmail ?d ?i w] => destruct (sendEmail d i w) as [[r|e] w1]
  end; cbn; eexists; eexists; reflexivity.
Qed.

Lemma handleSendBulkEmails_returns (parameters : SendBulkParams.t) (w : World) :
  exists resp w',
    handleSendBulkEmails sendBulkEmails parameters w = (Return resp, w').
Proof.
  unfold handleSendBulkEmails, try_catch, bind.
  match goal with
  | |- context [sendBulkEmails ?d ?i w] =>
      destruct (sendBulkEmails d i w) as [[r|e] w1]
  end; cbn; eexists; eexists; reflexivity.
Qed.

Lemma handleGetSmtpConfigs_returns (w : World) :
  exists resp w',
    handleGetSmtpConfigs base64_decode JSON_parse JSON_stringify w
    = (Return resp, w').
Proof.
  unfold handleGetSmtpConfigs, try_catch, bind.
  destruct (Config.getSmtpConfigs base64_decode JSON_parse w) as [[r|e] w1];
    cbn; eexists; eexists; reflexivity.
Qed.

Lemma getEmailLogs_returns (w : World) :
  exists logs w', Config.getEmailLogs w = (Return logs, w') /\ sameButLog w w'.
Proof.
  destruct w as [env cache [ed lf wo] lw sl].
  destruct lf as [[err|[|l]]|]; run_js;
    eexists; eexists; (split; [reflexivity | only_log]).
Qed.

Lemma handleGetEmailLogs_returns (limit : option Z) (f : option bool)
    (w : World) :
  exists resp w',
    handleGetEmailLogs Date_getTime limit f w = (Return resp, w') /\
    sameButLog w w'.
Proof.
  destruct (getEmailLogs_returns w) as (logs & w1 & Hg & S1).
  unfold handleGetEmailLogs, try_catch, bind. rewrite Hg.
  destruct logs as [|l], f as [b|]; cbn;
    eexists; eexists; (split; [reflexivity|]);
    try exact S1; apply sameButLog_append; exact S1.
Qed.

(** X12. [send-email] always answers: the handler never throws. When
    [sendEmail] returns, the answer carries its success flag and its
    message and nothing else happens; when [sendEmail] throws, the answer
    is a failure with the error's message, and the error is reported in
    two lines of the server log. *)
Theorem handleSendEmail_always_answers
    (parameters : SendEmailParams.t) (w : World) :
  exists resp w',
    handleSendEmail sendEmail parameters w = (Return resp, w') /\
    match sendEmail (emailDataOf parameters (recipientsOf parameters))
                    (SendEmailParams.smtpConfigId parameters) w with
    | (Return result, w1) =>
        w' = w1 /\
        SendEmailResponse.success resp = SendResult.success result /\
        SendEmailResponse.message resp = SendResult.message result
    | (Throw e, w1) =>
        w' = appendServerLog (Js.message e)
               (appendServerLog "Error in handleSendEmail:" w1) /\
        SendEmailResponse.success resp = false /\
        SendEmailResponse.message resp = Some (Js.message e)
    end.
Proof.
  unfold handleSendEmail, try_catch, bind, emailDataOf.
  match goal with
  | |- context [sendEmail ?d ?i w] => destruct (sendEmail d i w) as [[r|e] w1]
  end; cbn; eexists; eexists; (split; [reflexivity|]); repeat split.
Qed.

(** X13. [send-bulk-emails] always answers: the handler never throws,
    whatever engine is behind it. When the engine returns, the answer
    carries its success flag, totals, failures and message unchanged; when
    it throws, the answer is a failure that counts no message as sent and
    every recipient of the request as failed. *)
Theorem handleSendBulkEmails_always_answers
    (parameters : SendBulkParams.t) (w : World) :
  exists resp w',
    handleSendBulkEmails sendBulkEmails parameters w = (Return resp, w') /\
    match sendBulkEmails (requestOf parameters)
                         (SendBulkParams.smtpConfigId parameters) w with
    | (Return result, w1) =>
        w' = w1 /\
        SendBulkResponse.success resp = BulkResult.success result /\
        SendBulkResponse.totalSent resp = BulkResult.totalSent result /\
        SendBulkResponse.totalFailed resp = BulkResult.totalFailed result /\
        SendBulkResponse.failures resp = Some (BulkResult.failures result) /\
        SendBulkResponse.message resp = BulkResult.message result
    | (Throw e, w1) =>
        sameButLog w1 w' /\
        SendBulkResponse.success resp = false /\
        SendBulkResponse.totalSent resp = 0 /\
        SendBulkResponse.totalFailed resp = recipientCount parameters /\
        SendBulkResponse.failures resp = None /\
        SendBulkResponse.message resp = Js.message e
    end.
Proof.
  unfold handleSendBulkEmails, try_catch, bind, requestOf, recipientCount.
  match goal with
  | |- context [sendBulkEmails ?d ?i w] =>
      destruct (sendBulkEmails d i w) as [[r|e] w1]
  end; cbn; eexists; eexists; (split; [reflexivity|]).
  - repeat split.
  - split; [only_log|]. repeat split.
    destruct (SendBulkParams.recipients parameters) as [[|r l]|]; reflexivity.
Qed.

(** X14. [get-smtp-configs] always answers: the handler never throws. When
    [getSmtpConfigs] returns, the answer is a success that carries the
    relay list as it is, every field of every relay included (host, port,
    user and password), and puts each relay through [JSON.stringify] into
    the text; when it throws, the answer is a failure with the error's
    message and no list. *)
Theorem handleGetSmtpConfigs_always_answers (w : World) :
  exists resp w',
    handleGetSmtpConfigs base64_decode JSON_parse JSON_stringify w
    = (Return resp, w') /\
    match Config.getSmtpConfigs base64_decode JSON_parse w with
    | (Return configs, w1) =>
        w' = w1 /\
        ConfigsResponse.success resp = true /\
        ConfigsResponse.configs resp = Some configs /\
        ConfigsResponse.message resp = None /\
        ConfigsResponse.content resp
        = textContent
            (cat ["📧 Retrieved "; string_of_nat (List.length configs);
                  " SMTP configuration";
                  if negb (List.length configs =? 1) then "s" else "";
                  " "; String (ascii_of_nat 10) EmptyString; " ";
                  String.concat "," (map JSON_stringify configs)])
    | (Throw e, w1) =>
        sameButLog w1 w' /\
        ConfigsResponse.success resp = false /\
        ConfigsResponse.configs resp = None /\
        ConfigsResponse.message resp = Some (Js.message e)
    end.
Proof.
  unfold handleGetSmtpConfigs, try_catch, bind.
  destruct (Config.getSmtpConfigs base64_decode JSON_parse w)
    as [[configs|e] w1];
    cbn; eexists; eexists; (split; [reflexivity|]).
  - repeat split.
  - split; [only_log|]. repeat split.
Qed.

(** X15. [get-email-logs] always answers: the handler never throws and
    changes nothing but the server log. When the log file holds JSON that
    is not an array the answer is a failure with the message "Failed to
    retrieve email logs" and no result; when the file holds an array of
    log entries the answer is a success; a file that is missing, or that
    cannot be read or parsed, gives a success with no entries. *)
Theorem handleGetEmailLogs_always_answers
    (limit : option Z) (f : option bool) (w : World) :
  exists resp w',
    handleGetEmailLogs Date_getTime limit f w = (Return resp, w') /\
    sameButLog w w' /\
    (logFile (disk w) = Some (Parsed LogNotArray) ->
     LogsResponse.success resp = false /\
     LogsResponse.result resp = None /\
     LogsResponse.message resp = Some "Failed to retrieve email logs") /\
    (forall L, logFile (disk w) = Some (Parsed (LogEntries L)) ->
     LogsResponse.success resp = true) /\
    ((logFile (disk w) = None \/
      exists err, logFile (disk w) = Some (ReadFails err)) ->
     LogsResponse.success resp = true /\
     LogsResponse.result resp = Some []).
Proof.
  destruct (storedLog w) as [L|] eqn:HL.
  - pose proof (handleGetEmailLogs_answer Date_getTime limit f w L HL) as Hrun.
    cbv zeta in Hrun.
    eexists; exists w. split; [exact Hrun|]. split; [only_log|].
    cbn [LogsResponse.success LogsResponse.result LogsResponse.message].
    unfold storedLog in HL.
    split; [|split].
    + intros Hfile. rewrite Hfile in HL. discriminate HL.
    + reflexivity.
    + intros [Hnone|(err & Herr)].
      * rewrite Hnone in HL. injection HL as <-. split; [reflexivity|].
        destruct f, limit as [n|]; cbn; try reflexivity;
          destruct (0 <? n)%Z; try reflexivity; apply f_equal, firstn_nil.
      * rewrite Herr in HL. discriminate HL.
  - destruct w as [env cache [ed lf wo] lw sl]. unfold storedLog in HL.
    cbn in HL. cbn [disk logFile].
    destruct lf as [[err|[|l]]|]; try discriminate HL.
    + unfold handleGetEmailLogs, try_catch, bind. run_js.
      destruct f as [b|], limit as [n|]; cbn;
        try (destruct (Z.eqb_spec n 0) as [->|Hn]; cbn [negb andb];
             [|destruct (0 <? n)%Z]);
        cbn; unfold JsArray.slice0; rewrite ?firstn_nil;
        eexists; eexists; (split; [reflexivity|]); (split; [only_log|]);
        cbn; (split; [discriminate|]); (split; [reflexivity|]);
        intros _; split; reflexivity.
    + unfold handleGetEmailLogs, try_catch, bind. run_js.
      destruct f as [b|]; cbn;
        eexists; eexists; (split; [reflexivity|]); (split; [only_log|]);
        cbn; (split; [intros _; repeat split|]);
        (split; [discriminate|]);
        intros [Hn|(err & He)]; discriminate.
Qed.

End HandlersAnswer.

(** ** Tool calls *)

Section ToolCalls.

Import ToolRequests.

Variable Arguments : Type.
Variable emptyObject : Arguments.
Variable sendEmailParameters : Arguments -> SendEmailParams.t.
Variable sendBulkParameters : Arguments -> SendBulkParams.t.
Variable limitOf : Arguments -> option Z.
Variable filterBySuccessOf : Arguments -> option bool.
Variable Date_getTime : string -> JsArray.Number.
Variable sendEmail : EmailData.t -> option string -> M SendResult.t.
Variable sendBulkEmails : BulkEmailData.t -> option string -> M BulkResult.t.
Variable base64_decode : string -> string.
Variable JSON_parse : string -> Completion Json.
Variable JSON_stringify : SmtpServerConfig -> string.

Local Abbreviation callTool' :=
  (callTool Arguments emptyObject sendEmailParameters sendBulkParameters
            limitOf filterBySuccessOf Date_getTime sendEmail sendBulkEmails
            base64_decode JSON_parse JSON_stringify).

Lemma not_handled_eqb (toolName : string) :
  ~ In toolName handledNames ->
  String.eqb toolName "send-email" = false /\
  String.eqb toolName "send-bulk-emails" = false /\
  String.eqb toolName "get-smtp-configs" = false /\
  String.eqb toolName "get-email-logs" = false.
Proof.
  intros Hnot. repeat split; apply String.eqb_neq; intros ->; apply Hnot;
    cbn; tauto.
Qed.

Lemma callTool_unhandled (tools : list (string * Tools.Tool.t))
    (toolName : string) (arguments : option Arguments) (w : World) :
  ~ In toolName handledNames ->
  callTool' tools toolName arguments w
  = (Throw (newError
              (cat ["Tool '"; toolName;
                    if hasTool tools toolName
                    then "' exists but no handler is implemented"
                    else "' not found"])), w).
Proof.
  intros Hnot. destruct (not_handled_eqb toolName Hnot) as (E1 & E2 & E3 & E4).
  unfold callTool. destruct (hasTool tools toolName); cbn [negb].
  - rewrite E1, E2, E3, E4. reflexivity.
  - reflexivity.
Qed.

(** X16. A call to a tool name the switch has no case for runs no handler
    and changes nothing: it throws, for every [tools] object and all
    arguments. The error says the tool was not found, unless [tools] holds
    the name or inherits it from [Object.prototype] (as [toString]); then
    it says the tool exists but no handler is implemented. *)
Theorem callTool_unhandled_name_throws
    (tools : list (string * Tools.Tool.t)) (toolName : string)
    (arguments : option Arguments) (w : World) :
  ~ In toolName handledNames ->
  exists e,
    callTool' tools toolName arguments w = (Throw e, w) /\
    (hasTool tools toolName = false ->
     Js.message e = cat ["Tool '"; toolName; "' not found"]) /\
    (hasTool tools toolName = true ->
     Js.message e
     = cat ["Tool '"; toolName; "' exists but no handler is implemented"]) /\
    (In toolName Object_prototype_names -> hasTool tools toolName = true).
Proof.
  intros Hnot. eexists. split; [apply callTool_unhandled; exact Hnot|].
  cbn [Js.message newError]. split; [|split].
  - intros ->. reflexivity.
  - intros ->. reflexivity.
  - intros Hin. unfold hasTool. apply orb_true_iff. right.
    apply existsb_exists. exists toolName. split; [exact Hin|].
    apply String.eqb_refl.
Qed.

(** X17. Listing and calling agree: with the tools of
    [createToolDefinitions], a call returns an answer exactly when its
    tool name is the name of a tool the list handler reports; every other
    name makes the call throw. *)
Theorem callTool_answers_iff_listed
    (toolName : string) (arguments : option Arguments) (w : World) :
  (exists result w',
     callTool' Tools.createToolDefinitions toolName arguments w
     = (Return result, w'))
  <-> In toolName
         (map Tools.Tool.name (listTools Tools.createToolDefinitions)).
Proof.
  change (map Tools.Tool.name (listTools Tools.createToolDefinitions))
    with handledNames.
  split.
  - intros (result & w' & Hrun).
    destruct (in_dec string_dec toolName handledNames) as [Hin|Hnot];
      [exact Hin|].
    rewrite (callTool_unhandled _ _ _ _ Hnot) in Hrun. discriminate Hrun.
  - intros Hin. unfold handledNames in Hin. cbn [In] in Hin.
    destruct Hin as [<-|[<-|[<-|[<-|[]]]]]; unfold callTool;
      match goal with
      | |- context [hasTool ?t ?n] =>
          change (hasTool t n) with true
      end; cbn [negb String.eqb Ascii.eqb Bool.eqb andb].
    + match goal with
      | |- context [handleSendEmail ?s ?p] =>
          destruct (handleSendEmail_returns s p w) as (r & w1 & H1)
      end.
      rewrite (bind_Return _ _ w w1 r H1). eexists; eexists; reflexivity.
    + match goal with
      | |- context [handleSendBulkEmails ?s ?p] =>
          destruct (handleSendBulkEmails_returns s p w) as (r & w1 & H1)
      end.
      rewrite (bind_Return _ _ w w1 r H1). eexists; eexists; reflexivity.
    + destruct (handleGetSmtpConfigs_returns base64_decode JSON_parse
                  JSON_stringify w) as (r & w1 & H1).
      rewrite (bind_Return _ _ w w1 r H1). eexists; eexists; reflexivity.
    + match goal with
      | |- context [handleGetEmailLogs ?g ?l ?f] =>
          destruct (handleGetEmailLogs_returns g l f w) as (r & w1 & H1 & _)
      end.
      rewrite (bind_Return _ _ w w1 r H1). eexists; eexists; reflexivity.
Qed.

End ToolCalls.

(** * The properties on sample data *)

(** C1..C10 at concrete inputs: each lemma applies the theorem of the same
    subject to the data of [Sample]. *)

Lemma handleSendBulkEmails_totals_sample :
  exists r w1,
    resolve Sample.decode (Sample.parseTo (Sample.configOf [Sample.relayA]))
            Sample.resolveTemplate (requestOf Sample.bulk) None
            (Sample.world None) = (Return r, w1) /\
    exists resp w',
      handleSendBulkEmails
        (sendBulkEmails Sample.decode
           (Sample.parseTo (Sample.configOf [Sample.relayA]))
           Sample.resolveTemplate Sample.transport Sample.now Sample.summary)
        Sample.bulk (Sample.world None) = (Return resp, w') /\
      SendBulkResponse.totalSent resp + SendBulkResponse.totalFailed resp = 3 /\
      (SendBulkResponse.success resp = true
       <-> SendBulkResponse.totalFailed resp = 0).
Proof.
  eexists; eexists. split; [vm_compute; reflexivity|].
  pose proof (handleSendBulkEmails_totals Sample.decode
                (Sample.parseTo (Sample.configOf [Sample.relayA]))
                Sample.resolveTemplate Sample.transport Sample.now
                Sample.summary Sample.bulk (Sample.world None)) as H.
  cbv zeta in H. destruct H as (H & _ & _).
  eapply H. vm_compute. reflexivity.
Defined.

(** The same request, evaluated: two sent, one failed, in two batches. *)
Example handleSendBulkEmails_sample_run :
  exists content w',
    handleSendBulkEmails
      (sendBulkEmails Sample.decode
         (Sample.parseTo (Sample.configOf [Sample.relayA]))
         Sample.resolveTemplate Sample.transport Sample.now Sample.summary)
      Sample.bulk (Sample.world None)
    = (Return (SendBulkResponse.mk false 2 1
                 (Some [Failure.mk (Sample.recipientOf "bad@example.com")
                                   "550 mailbox unavailable"])
                 "2 sent, 1 failed" content), w') /\
    storedLog w'
    = Some [mkLogEntry Sample.day1 "a" None "u1@example.com" "Hello" true None;
            mkLogEntry Sample.day1 "a" None "bad@example.com" "Hello" false
                       (Some "550 mailbox unavailable");
            mkLogEntry Sample.day1 "a" None "u3@example.com" "Hello" true None].
Proof. eexists; eexists. split; vm_compute; reflexivity. Qed.

(** The scenario of the specification: neither relay marked default. *)
Lemma load_ensures_a_default_sample :
  loaded Sample.decode
         (Sample.parseTo (Sample.configOf [Sample.relayA; Sample.relayB]))
         (Sample.world None)
  = ParsedValue (SPArray [Sample.relayA; Sample.relayB]) None /\
  exists cfg w',
    Config.parseSmtpConfigFromEnv Sample.decode
      (Sample.parseTo (Sample.configOf [Sample.relayA; Sample.relayB]))
      (Sample.world None) = (Return cfg, w') /\
    smtpServers cfg = [Config.setDefault Sample.relayA; Sample.relayB] /\
    defaultCount (smtpServers cfg) = 1.
Proof.
  split; [reflexivity|].
  destruct (load_ensures_a_default Sample.decode
              (Sample.parseTo (Sample.configOf [Sample.relayA; Sample.relayB]))
              (Sample.world None) Sample.relayA [Sample.relayB] None eq_refl)
    as (cfg & w' & Hrun & _ & Hnone & _).
  exists cfg, w'. split; [exact Hrun|]. apply Hnone. reflexivity.
Defined.

(** C3, as stated, fails: two relays that both come marked default are
    both default after loading. *)
Lemma load_keeps_several_defaults :
  exists cfg w',
    Config.parseSmtpConfigFromEnv Sample.decode
      (Sample.parseTo
         (Sample.configOf [Config.setDefault Sample.relayA;
                           Config.setDefault Sample.relayB]))
      (Sample.world None) = (Return cfg, w') /\
    defaultCount (smtpServers cfg) = 2 /\
    defaultCount (smtpServers cfg) <> 1.
Proof.
  eexists; eexists. split; [vm_compute; reflexivity|].
  split; [reflexivity | discriminate].
Qed.

Lemma getSmtpConfigs_fails_without_relays_sample :
  cachedSmtpConfig (Sample.world None) = None /\
  usable Sample.decode (Sample.parseTo (Sample.configOf []))
         (Sample.world None) = false /\
  exists w',
    Config.getSmtpConfigs Sample.decode (Sample.parseTo (Sample.configOf []))
                          (Sample.world None)
    = (Throw (newError "Config not parsed!"), w') /\
    cachedSmtpConfig w' = None.
Proof.
  split; [reflexivity|]. split; [reflexivity|].
  exact (proj1 (getSmtpConfigs_fails_without_relays Sample.decode
                  (Sample.parseTo (Sample.configOf [])) id
                  (Sample.world None) eq_refl eq_refl)).
Defined.

Lemma get_email_logs_filtered_sample :
  storedLog Sample.logged = Some Sample.entries /\
  exists result content,
    handleGetEmailLogs Sample.getTime None (Some true) Sample.logged
    = (Return (LogsResponse.mk true (Some result) None content),
       Sample.logged) /\
    (forall e, In e result -> In e Sample.entries /\ success e = true) /\
    StronglySorted (newerOrSame Sample.getTime) result.
Proof.
  split; [reflexivity|].
  destruct (get_email_logs_filtered_newest_first Sample.getTime None true
              Sample.entries Sample.logged eq_refl)
    as (result & content & Hrun & Hflag & _ & Hsorted).
  exists result, content. split; [exact Hrun|]. split; [exact Hflag|].
  apply Hsorted. reflexivity.
Defined.

Example get_email_logs_filtered_sample_run :
  exists content,
    handleGetEmailLogs Sample.getTime None (Some true) Sample.logged
    = (Return (LogsResponse.mk true
                 (Some [Sample.entry Sample.day3 "u4@example.com" true;
                        Sample.entry Sample.day2 "u3@example.com" true;
                        Sample.entry Sample.day1 "u1@example.com" true])
                 None content), Sample.logged).
Proof. eexists. vm_compute. reflexivity. Qed.

Lemma get_email_logs_limit_sample :
  storedLog Sample.logged = Some Sample.entries /\
  (0 < 2)%Z /\
  exists result content,
    handleGetEmailLogs Sample.getTime (Some 2%Z) None Sample.logged
    = (Return (LogsResponse.mk true (Some result) None content),
       Sample.logged) /\
    (Z.of_nat (List.length result) <= 2)%Z /\
    StronglySorted (newerOrSame Sample.getTime) result.
Proof.
  split; [reflexivity|]. split; [reflexivity|].
  destruct (get_email_logs_limit_most_recent Sample.getTime 2 None
              Sample.entries Sample.logged eq_refl eq_refl)
    as (result & content & Hrun & Hmost & _ & rest & _ & Hrecent).
  exists result, content. split; [exact Hrun|]. split; [exact Hmost|].
  apply Hrecent. reflexivity.
Defined.

Example get_email_logs_limit_sample_run :
  exists content,
    handleGetEmailLogs Sample.getTime (Some 2%Z) None Sample.logged
    = (Return (LogsResponse.mk true
                 (Some [Sample.entry Sample.day3 "u2@example.com" false;
                        Sample.entry Sample.day3 "u4@example.com" true])
                 None content), Sample.logged).
Proof. eexists. vm_compute. reflexivity. Qed.

Lemma get_email_logs_nonpositive_limit_sample :
  storedLog Sample.logged = Some Sample.entries /\
  (-3 <= 0)%Z /\
  handleGetEmailLogs Sample.getTime (Some (-3)%Z) (Some false) Sample.logged
  = handleGetEmailLogs Sample.getTime None (Some false) Sample.logged.
Proof.
  split; [reflexivity|]. split; [discriminate|].
  apply (get_email_logs_nonpositive_limit_ignored Sample.getTime (-3)
           (Some false) Sample.entries Sample.logged);
    [reflexivity | discriminate].
Defined.

Lemma handleSendEmail_wraps_single_recipient_sample :
  exists content,
    handleSendEmail Sample.sendEmail Sample.single (Sample.world None)
    = (Return (SendEmailResponse.mk true None content), Sample.world None).
Proof.
  pose proof (handleSendEmail_wraps_single_recipient Sample.sendEmail
                Sample.single (Sample.recipientOf "u1@example.com")
                (Sample.world None)) as H.
  cbv zeta in H. destruct H as (_ & _ & H & _).
  exact (H (SendResult.mk true None) (Sample.world None) eq_refl).
Defined.

(** * The further properties on sample data *)

Lemma getSmtpConfigs_loads_once_sample :
  exists configs w1 w3,
    Config.getSmtpConfigs Sample.decode (Sample.parseTo Scenario.oneRelay)
                          (Sample.world None) = (Return configs, w1) /\
    Config.getSmtpConfigs Sample.decode (Sample.parseTo Scenario.noRelay) w1
    = (Return configs, w3) /\
    configs = [Config.setDefault Sample.relayA].
Proof.
  eexists; eexists.
  assert (H1 : Config.getSmtpConfigs Sample.decode
                 (Sample.parseTo Scenario.oneRelay) (Sample.world None)
               = (Return [Config.setDefault Sample.relayA],
                  snd (Config.getSmtpConfigs Sample.decode
                         (Sample.parseTo Scenario.oneRelay)
                         (Sample.world None))))
    by (vm_compute; reflexivity).
  destruct (getSmtpConfigs_loads_once Sample.decode
              (Sample.parseTo Scenario.oneRelay) _ _ _ H1
              Sample.decode (Sample.parseTo Scenario.noRelay) _ eq_refl)
    as (w3 & H3 & _).
  exists w3. split; [exact H1|]. split; [exact H3 | reflexivity].
Defined.

Lemma getSmtpConfigs_throws_only_unloaded_sample :
  exists e w',
    Config.getSmtpConfigs Sample.decode (Sample.parseTo Scenario.noRelay)
                          (Sample.world None) = (Throw e, w') /\
    cachedSmtpConfig w' = None /\
    e = newError "Config not parsed!".
Proof.
  eexists; eexists.
  assert (H1 : Config.getSmtpConfigs Sample.decode
                 (Sample.parseTo Scenario.noRelay) (Sample.world None)
               = (Throw (newError "Config not parsed!"),
                  snd (Config.getSmtpConfigs Sample.decode
                         (Sample.parseTo Scenario.noRelay)
                         (Sample.world None))))
    by (vm_compute; reflexivity).
  split; [exact H1|].
  destruct (getSmtpConfigs_throws_only_unloaded Sample.decode
              (Sample.parseTo Scenario.noRelay) _ _ _ H1)
    as (_ & _ & _ & Hcache & _).
  split; [exact Hcache | reflexivity].
Defined.

Lemma getSmtpConfigs_hands_out_default_sample :
  cacheSound (Sample.world None) /\
  exists configs w',
    Config.getSmtpConfigs Sample.decode (Sample.parseTo Scenario.oneRelay)
                          (Sample.world None) = (Return configs, w') /\
    existsb isDefault configs = true /\ cacheSound w'.
Proof.
  assert (Hsound : cacheSound (Sample.world None))
    by (intros c Hc; discriminate Hc).
  split; [exact Hsound|].
  eexists; eexists.
  assert (H1 : Config.getSmtpConfigs Sample.decode
                 (Sample.parseTo Scenario.oneRelay) (Sample.world None)
               = (Return [Config.setDefault Sample.relayA],
                  snd (Config.getSmtpConfigs Sample.decode
                         (Sample.parseTo Scenario.oneRelay)
                         (Sample.world None))))
    by (vm_compute; reflexivity).
  split; [exact H1|].
  destruct (getSmtpConfigs_hands_out_default Sample.decode
              (Sample.parseTo Scenario.oneRelay) _ _ _ Hsound H1)
    as (_ & Hdef & _ & Hsound').
  split; assumption.
Defined.

Lemma getEmailLogs_never_throws_sample :
  exists w',
    Config.getEmailLogs Scenario.unreadable = (Return (LogEntries []), w') /\
    serverLog w' = ["Error reading email logs: EACCES: permission denied"].
Proof.
  destruct (getEmailLogs_never_throws Scenario.unreadable)
    as (logs & w' & Hrun & _ & _ & Hfail).
  destruct (Hfail (newError "EACCES: permission denied") eq_refl)
    as (Hlogs & Hw).
  exists w'. rewrite Hlogs in Hrun. split; [exact Hrun|].
  rewrite Hw. reflexivity.
Defined.

Lemma logEmailActivity_failure_keeps_file_sample :
  exists w',
    Config.logEmailActivity Scenario.latest Scenario.notArray
    = (Return false, w') /\
    disk w' = disk Scenario.notArray.
Proof.
  eexists.
  assert (H1 : Config.logEmailActivity Scenario.latest Scenario.notArray
               = (Return false,
                  snd (Config.logEmailActivity Scenario.latest
                                               Scenario.notArray)))
    by (vm_compute; reflexivity).
  split; [exact H1|].
  destruct (logEmailActivity_failure_keeps_file _ _ _ H1)
    as (_ & _ & Hdisk & _).
  apply Hdisk. reflexivity.
Defined.

Lemma appendAll_unreadable_log_sample :
  storedLog Scenario.unreadable = None /\
  exists w',
    appendAll Scenario.older Scenario.unreadable
    = (Return [false; false], w') /\
    disk w' = disk Scenario.unreadable.
Proof.
  split; [reflexivity|].
  destruct (appendAll_unreadable_log Scenario.older Scenario.unreadable
              eq_refl) as (w' & Hrun & Hdisk & _).
  exists w'. split; [exact Hrun | exact Hdisk].
Defined.

Lemma appendAll_extends_log_sample :
  storageOk Sample.logged = true /\
  storedLog Sample.logged = Some Sample.entries /\
  exists w',
    appendAll Scenario.older Sample.logged = (Return [true; true], w') /\
    Config.getEmailLogs w'
    = (Return (LogEntries (Sample.entries ++ Scenario.older)), w').
Proof.
  split; [reflexivity|]. split; [reflexivity|].
  destruct (appendAll_extends_log Scenario.older Sample.logged Sample.entries
              eq_refl eq_refl) as (w' & Hrun & _ & Hread & _).
  exists w'. split; [exact Hrun | exact Hread].
Defined.

Lemma appended_entry_is_returned_sample :
  exists w' result content,
    Async.runAmong Scenario.chatter 0
      (Config.logEmailActivityTask Scenario.latest) Sample.logged
    = (Return true, w') /\
    handleGetEmailLogs Sample.getTime (Some 0%Z) (Some true) w'
    = (Return (LogsResponse.mk true (Some result) None content), w') /\
    In Scenario.latest result.
Proof.
  eexists.
  assert (H1 : Async.runAmong Scenario.chatter 0
                 (Config.logEmailActivityTask Scenario.latest) Sample.logged
               = (Return true,
                  snd (Async.runAmong Scenario.chatter 0
                         (Config.logEmailActivityTask Scenario.latest)
                         Sample.logged)))
    by (vm_compute; reflexivity).
  destruct (appended_entry_is_returned Sample.getTime Scenario.chatter
              Sample.entries Scenario.latest Sample.logged _ (Some 0%Z)
              (Some true) (fun n x => appendServerLog_keeps_disk _ x) eq_refl H1
              (or_intror eq_refl))
    as (result & content & Hrun & Hin).
  { intros n Hn. injection Hn as <-. discriminate. }
  exists result, content. split; [exact H1|]. split; assumption.
Defined.

Lemma newest_entry_is_first_sample :
  exists w' content,
    Async.runAmong Scenario.chatter 0
      (Config.logEmailActivityTask Scenario.latest)
      (Sample.world (Some (Parsed (LogEntries Scenario.older))))
    = (Return true, w') /\
    handleGetEmailLogs Sample.getTime (Some 1%Z) None w'
    = (Return (LogsResponse.mk true (Some [Scenario.latest]) None content),
       w').
Proof.
  eexists.
  assert (H1 : Async.runAmong Scenario.chatter 0
                 (Config.logEmailActivityTask Scenario.latest)
                 (Sample.world (Some (Parsed (LogEntries Scenario.older))))
               = (Return true,
                  snd (Async.runAmong Scenario.chatter 0
                         (Config.logEmailActivityTask Scenario.latest)
                         (Sample.world
                            (Some (Parsed (LogEntries Scenario.older)))))))
    by (vm_compute; reflexivity).
  destruct (newest_entry_is_first Sample.getTime Scenario.chatter
              Scenario.latest
              (Sample.world (Some (Parsed (LogEntries Scenario.older))))
              _ Scenario.older None (fun n x => appendServerLog_keeps_disk _ x) eq_refl H1
              (or_introl eq_refl) eq_refl)
    as (content & Hrun).
  { intros x Hx. cbn in Hx.
    destruct Hx as [<-|[<-|[]]]; split; reflexivity. }
  exists content. split; [exact H1 | exact Hrun].
Defined.

Lemma filters_partition_log_sample :
  storedLog Sample.logged = Some Sample.entries /\
  exists sent failed contentSent contentFailed,
    handleGetEmailLogs Sample.getTime None (Some true) Sample.logged
    = (Return (LogsResponse.mk true (Some sent) None contentSent),
       Sample.logged) /\
    handleGetEmailLogs Sample.getTime None (Some false) Sample.logged
    = (Return (LogsResponse.mk true (Some failed) None contentFailed),
       Sample.logged) /\
    List.length sent + List.length failed = 4.
Proof.
  split; [reflexivity|].
  destruct (filters_partition_log Sample.getTime Sample.logged Sample.entries
              eq_refl)
    as (sent & failed & cs & cf & Hs & Hf & _ & Hlen).
  exists sent, failed, cs, cf. split; [exact Hs|]. split; [exact Hf|].
  exact Hlen.
Defined.

Lemma stored_order_is_irrelevant_sample :
  exists response,
    handleGetEmailLogs Sample.getTime (Some 2%Z) (Some true) Sample.logged
    = (Return response, Sample.logged) /\
    handleGetEmailLogs Sample.getTime (Some 2%Z) (Some true) Scenario.reversed
    = (Return response, Scenario.reversed).
Proof.
  apply (stored_order_is_irrelevant Sample.getTime Sample.logged
           Scenario.reversed Sample.entries (rev Sample.entries)
           (Some 2%Z) (Some true)).
  - reflexivity.
  - reflexivity.
  - apply Permutation_rev.
  - reflexivity.
  - cbn. repeat constructor; cbn; intuition discriminate.
Defined.

Lemma handleGetEmailLogs_always_answers_sample :
  exists resp w',
    handleGetEmailLogs Sample.getTime None None Scenario.notArray
    = (Return resp, w') /\
    LogsResponse.success resp = false /\
    LogsResponse.message resp = Some "Failed to retrieve email logs".
Proof.
  destruct (handleGetEmailLogs_always_answers Sample.getTime None None
              Scenario.notArray)
    as (resp & w' & Hrun & _ & Hfail & _).
  exists resp, w'. split; [exact Hrun|].
  destruct (Hfail eq_refl) as (Hs & _ & Hm). split; assumption.
Defined.

Lemma callTool_unhandled_name_throws_sample :
  ~ In "toString" handledNames /\
  exists e,
    Scenario.call "toString" (Sample.world None)
    = (Throw e, Sample.world None) /\
    Js.message e = "Tool 'toString' exists but no handler is implemented".
Proof.
  assert (Hnot : ~ In "toString" handledNames)
    by (cbn; intuition discriminate).
  split; [exact Hnot|].
  destruct (callTool_unhandled_name_throws unit tt
              Scenario.sendEmailParameters Scenario.sendBulkParameters
              Scenario.limitOf Scenario.filterBySuccessOf Sample.getTime
              Sample.sendEmail
              (sendBulkEmails Sample.decode (Sample.parseTo Scenario.oneRelay)
                 Sample.resolveTemplate Sample.transport Sample.now
                 Sample.summary)
              Sample.decode (Sample.parseTo Scenario.oneRelay)
              Scenario.stringify Tools.createToolDefinitions "toString" None
              (Sample.world None) Hnot)
    as (e & Hrun & _ & Hexists & _).
  exists e. split; [exact Hrun|]. apply Hexists. reflexivity.
Defined.

Lemma callTool_answers_iff_listed_sample :
  exists result w',
    Scenario.call "get-email-logs" Sample.logged = (Return result, w').
Proof.
  apply (proj2 (callTool_answers_iff_listed unit tt
                  Scenario.sendEmailParameters Scenario.sendBulkParameters
                  Scenario.limitOf Scenario.filterBySuccessOf Sample.getTime
                  Sample.sendEmail
                  (sendBulkEmails Sample.decode
                     (Sample.parseTo Scenario.oneRelay)
                     Sample.resolveTemplate Sample.transport Sample.now
                     Sample.summary)
                  Sample.decode (Sample.parseTo Scenario.oneRelay)
                  Scenario.stringify "get-email-logs" None Sample.logged)).
  cbn. tauto.
Defined.

(** * Where the specification and the code part *)

Lemma logEmailActivity_undisturbed_sample :
  (forall n x, disk (Scenario.chatter n x) = disk x) /\
  storedLog Sample.logged = Some Sample.entries /\
  exists w',
    Async.runAmong Scenario.chatter 0
      (Config.logEmailActivityTask Scenario.latest) Sample.logged
    = (Return true, w') /\
    storedLog w' = Some (Sample.entries ++ [Scenario.latest]).
Proof.
  assert (Hd : forall n x, disk (Scenario.chatter n x) = disk x)
    by (intros n x; apply appendServerLog_keeps_disk).
  split; [exact Hd|]. split; [reflexivity|].
  eexists.
  assert (H1 : Async.runAmong Scenario.chatter 0
                 (Config.logEmailActivityTask Scenario.latest) Sample.logged
               = (Return true,
                  snd (Async.runAmong Scenario.chatter 0
                         (Config.logEmailActivityTask Scenario.latest)
                         Sample.logged)))
    by (vm_compute; reflexivity).
  split; [exact H1|].
  exact (proj1 (proj2 (logEmailActivity_undisturbed_appends_at_end
                         Scenario.chatter Sample.entries Scenario.latest
                         Sample.logged _ Hd eq_refl H1))).
Defined.

(** C8, as stated, fails: of two appends that overlap, both return [true],
    and the entry of the one that writes first is gone from the log. *)
Lemma overlapping_appends_lose_an_entry :
  exists final,
    Async.interleave Scenario.overlap
      (Config.logEmailActivityTask Scenario.latest)
      (Config.logEmailActivityTask Scenario.other) Sample.logged
    = (Async.Settled (Return true), Async.Settled (Return true), final) /\
    storedLog final = Some (Sample.entries ++ [Scenario.other]) /\
    ~ In Scenario.latest (Sample.entries ++ [Scenario.other]).
Proof.
  eexists. split; [vm_compute; reflexivity|]. split; [reflexivity|].
  cbn. intros H. repeat (destruct H as [H|H]; [discriminate H|]). exact H.
Qed.

(** C5, as stated, fails: with one stored timestamp that is no date, the
    answer lists the entry of January 1 before the entry of January 3. *)
Lemma unparsable_timestamp_breaks_order :
  exists content,
    handleGetEmailLogs Sample.getTime None (Some true) Scenario.partlyDated
    = (Return (LogsResponse.mk true
                 (Some [Scenario.dated1; Scenario.undated; Scenario.dated3])
                 None content), Scenario.partlyDated) /\
    validTimestamp Sample.getTime Scenario.dated1 = true /\
    validTimestamp Sample.getTime Scenario.dated3 = true /\
    (timeOf Sample.getTime Scenario.dated1
     < timeOf Sample.getTime Scenario.dated3)%Z.
Proof.
  eexists. split; [vm_compute; reflexivity|].
  repeat split.
Qed.

(** C6, as stated, fails: with one stored timestamp that is no date,
    limit 1 returns the entry of January 1 although the log holds an entry
    of January 3. *)
Lemma unparsable_timestamp_breaks_limit :
  exists content,
    handleGetEmailLogs Sample.getTime (Some 1%Z) None Scenario.partlyDated
    = (Return (LogsResponse.mk true (Some [Scenario.dated1]) None content),
       Scenario.partlyDated) /\
    storedLog Scenario.partlyDated
    = Some [Scenario.dated1; Scenario.undated; Scenario.dated3] /\
    validTimestamp Sample.getTime Scenario.dated1 = true /\
    validTimestamp Sample.getTime Scenario.dated3 = true /\
    (timeOf Sample.getTime Scenario.dated1
     < timeOf Sample.getTime Scenario.dated3)%Z.
Proof.
  eexists. split; [vm_compute; reflexivity|].
  repeat split.
Qed.
